(** * modelize: a proxy wrapper with dirty tracking, validation and
      change notifications

    Shallow embedding of [src/modelize.ts] (the [modelize] function, its
    proxy handler and helpers) and of the [createPubSub] primitive it
    consumes.

    JavaScript objects live in a store indexed by locations, so that
    aliasing, in-place mutation and the isolation of the initial snapshot
    are visible.  Thrown errors do not roll the store back: an operation is
    a function from the world to an outcome (a returned value or a thrown
    error) paired with the world it leaves behind. *)

From stdpp Require Import gmap strings list fin_maps.
From Stdlib Require Import ZArith Ascii.

Set Warnings "-register-all,-clear-no-such-hyp".

Open Scope string_scope.
Open Scope list_scope.

(** ** Values and the object store *)

Abbreviation loc := positive.

(** JavaScript values.  Numbers are the integers plus [NaN], which is all
    strict equality distinguishes here ([NaN !== NaN]).  Containers are
    references into the store.  [VBuiltin] is an object of the runtime,
    known by its identity: [Object.prototype] or one of its methods. *)
Inductive value :=
| VUndefined
| VNull
| VBool (b : bool)
| VNumber (n : Z)
| VNaN
| VString (s : string)
| VRef (l : loc)
| VBuiltin (name : string).

#[global] Instance value_eq_dec : EqDecision value.
Proof. solve_decision. Defined.

(** [a === b]: primitives by value (except [NaN]), references by identity. *)
Definition strict_eq (a b : value) : bool :=
  match a, b with
  | VNaN, _ | _, VNaN => false
  | _, _ => bool_decide (a = b)
  end.

(** A stored object: a plain object, whose own enumerable data properties
    are kept in enumeration order, or an array. *)
Inductive obj :=
| Obj (props : list (string * value))
| Arr (elems : list value).

Abbreviation heap := (gmap loc obj).

(** *** Own properties of a plain object *)

Definition keys_of {A} (ps : list (string * A)) : list string := ps.*1.

Fixpoint lookup_prop {A} (ps : list (string * A)) (key : string) : option A :=
  match ps with
  | [] => None
  | (k, v) :: rest => if decide (k = key) then Some v else lookup_prop rest key
  end.

(** *** Inherited properties

    A plain object inherits the properties of [Object.prototype]: its
    methods and [__proto__].  None of them is enumerable, so [Object.keys]
    and the [hasOwnProperty] loops never meet them; [key in o] and [o[key]]
    do.  The prototype itself is taken as the runtime provides it: nothing
    here adds to it or removes from it.  [__proto__] is an accessor in the
    runtime: read, it yields the prototype; assigned as an inherited
    property, it sets the prototype of the object rather than a property.
    It is listed with the methods, which is right for [key in o] and for
    [o.__proto__]; the statements about assigned values leave an inherited
    [__proto__] out. *)
Definition Object_prototype : list (string * value) :=
  [ ("constructor", VBuiltin "Object");
    ("__defineGetter__", VBuiltin "Object.prototype.__defineGetter__");
    ("__defineSetter__", VBuiltin "Object.prototype.__defineSetter__");
    ("hasOwnProperty", VBuiltin "Object.prototype.hasOwnProperty");
    ("__lookupGetter__", VBuiltin "Object.prototype.__lookupGetter__");
    ("__lookupSetter__", VBuiltin "Object.prototype.__lookupSetter__");
    ("isPrototypeOf", VBuiltin "Object.prototype.isPrototypeOf");
    ("propertyIsEnumerable", VBuiltin "Object.prototype.propertyIsEnumerable");
    ("toString", VBuiltin "Object.prototype.toString");
    ("valueOf", VBuiltin "Object.prototype.valueOf");
    ("__proto__", VBuiltin "Object.prototype");
    ("toLocaleString", VBuiltin "Object.prototype.toLocaleString") ].

(** [key in o]: an own property of [o] or an inherited one. *)
Definition has_key (ps : list (string * value)) (key : string) : bool :=
  bool_decide (key ∈ keys_of ps) ||
  bool_decide (key ∈ keys_of Object_prototype).

(** [o[key]]: the own property, else the inherited one; a property found
    nowhere reads as [undefined]. *)
Definition get_prop (ps : list (string * value)) (key : string) : value :=
  match lookup_prop ps key with
  | Some v => v
  | None => default VUndefined (lookup_prop Object_prototype key)
  end.

(** [o[key] = v]: an existing property keeps its place, a new one is
    appended. *)
Fixpoint set_prop {A} (ps : list (string * A)) (key : string) (v : A)
  : list (string * A) :=
  match ps with
  | [] => [(key, v)]
  | (k, w) :: rest =>
      if decide (k = key) then (k, v) :: rest else (k, w) :: set_prop rest key v
  end.

(** [delete o[key]] *)
Definition delete_prop {A} (ps : list (string * A)) (key : string)
  : list (string * A) :=
  filter (λ kv, kv.1 ≠ key) ps.

(** Allocation of a new object at an unused location. *)
Definition alloc (h : heap) (o : obj) : loc * heap :=
  let l := fresh (dom h) in (l, <[l := o]> h).


(** ** Deep structure of a value *)

(** The finite tree a value unfolds to; deep equality of two values, each in
    its own store, is equality of their trees. *)
Inductive tree :=
| TUndefined
| TNull
| TBool (b : bool)
| TNumber (n : Z)
| TNaN
| TString (s : string)
| TBuiltin (name : string)
| TObject (props : list (string * tree))
| TArray (elems : list tree).

(** [reify R fuel h v] unfolds [v] in [h], following references through the
    locations accepted by [R] only, at most [fuel] containers deep. *)
Fixpoint reify (R : loc → bool) (fuel : nat) (h : heap) (v : value)
  : option tree :=
  match v with
  | VUndefined => Some TUndefined
  | VNull => Some TNull
  | VBool b => Some (TBool b)
  | VNumber n => Some (TNumber n)
  | VNaN => Some TNaN
  | VString s => Some (TString s)
  | VBuiltin name => Some (TBuiltin name)
  | VRef l =>
      match fuel with
      | O => None
      | S f =>
          if R l then
            match h !! l with
            | Some (Obj ps) =>
                (λ ts, TObject (zip (keys_of ps) ts)) <$>
                  mapM (reify R f h) ps.*2
            | Some (Arr es) => TArray <$> mapM (reify R f h) es
            | None => None
            end
          else None
      end
  end.

Definition anywhere : loc → bool := λ _, true.

(** Locations allocated between the store [h] and its extension [h']. *)
Definition allocated (h h' : heap) : loc → bool :=
  λ l, bool_decide (l ∈ dom h' ∖ dom h).

(** ** deepClone *)

(** Left-to-right traversal threading the store. *)
Fixpoint traverse {A B} (g : heap → A → option (B * heap)) (h : heap)
  (xs : list A) : option (list B * heap) :=
  match xs with
  | [] => Some ([], h)
  | x :: rest =>
      match g h x with
      | Some (y, h1) =>
          match traverse g h1 rest with
          | Some (ys, h2) => Some (y :: ys, h2)
          | None => None
          end
      | None => None
      end
  end.

(** [deepClone(obj)].  [fuel] bounds the recursion depth (the call stack);
    [None] is the absence of a result: the stack is exhausted, as on a
    cyclic structure, or a reference dangles.  A value that is not a
    container is returned as it is, a function ([VBuiltin]) included.  The
    members of a container are copied in enumeration order and kept under
    their keys.  The copy of
    a container is stored once its members are copied; the source stores an
    empty container first and fills it, which no caller can tell apart as
    the copy is unreachable until it is returned. *)
Fixpoint deepClone (fuel : nat) (h : heap) (v : value) {struct fuel}
  : option (value * heap) :=
  match v with
  | VRef l =>
      match fuel with
      | O => None
      | S f =>
          match h !! l with
          | Some (Arr es) =>
              match traverse (deepClone f) h es with
              | Some (es', h1) =>
                  let '(c, h2) := alloc h1 (Arr es') in Some (VRef c, h2)
              | None => None
              end
          | Some (Obj ps) =>
              match traverse (deepClone f) h ps.*2 with
              | Some (vs', h1) =>
                  let '(c, h2) := alloc h1 (Obj (zip (keys_of ps) vs')) in
                  Some (VRef c, h2)
              | None => None
              end
          | None => None
          end
      end
  | _ => Some (v, h)
  end.

(** ** Validation data *)

Record ValidationError := { path : string; message : string }.

#[global] Instance ValidationError_eq_dec : EqDecision ValidationError.
Proof. solve_decision. Defined.

(** The schema engine (AJV) is consumed through its interface: a compiled
    validator answers pass or fail for the model found in the store and
    exposes its error records. *)
Module Ajv.
Record ErrorObject := { instancePath : string; message : option string }.
Definition ValidateFunction : Type :=
  heap → loc → bool * option (list ErrorObject).
End Ajv.

(** [s || d] on strings: the empty string is falsy. *)
Definition or_default (s d : string) : string :=
  if decide (s = EmptyString) then d else s.

Definition ajvErrorsToValidationErrors (errors : option (list Ajv.ErrorObject))
  : list ValidationError :=
  match errors with
  | None => []
  | Some errors =>
      (λ e, {| path := or_default (Ajv.instancePath e) "/";
               message := or_default (default EmptyString (Ajv.message e))
                            "Unknown validation error" |}) <$> errors
  end.

(** The result of the custom validator: [true] or an error message. *)
Inductive custom_result :=
| CTrue
| CMessage (msg : string).

Definition CustomValidator : Type := heap → loc → custom_result.

(** ** Errors *)

Inductive JSError :=
| Error (msg : string)
| ModelizeValidationError (msg : string) (errors : list ValidationError).

Definition dq : string := String (ascii_of_nat 34) EmptyString.
Definition quoted (s : string) : string := dq +:+ s +:+ dq.

Definition RESERVED_NAMES : list string :=
  [ "__dirty"; "__isDirty"; "__isValid"; "__source"; "__initial"; "__errors";
    "__validate"; "__reset"; "__resetToInitial"; "__hydrate"; "subscribe" ].

Definition is_reserved (key : string) : bool :=
  bool_decide (key ∈ RESERVED_NAMES).

(** ** Publish / subscribe *)

(** A subscriber is a function, known by its identity.  Subscribers are
    observers: an invocation is recorded in the trace together with what
    the subscriber finds when it runs; it does not act on the world. *)
Definition callback := nat.

(** The payload of a notification: the proxy, known by its target. *)
Inductive detail := Proxy (target : loc).

#[global] Instance detail_eq_dec : EqDecision detail.
Proof. solve_decision. Defined.

Record observed := Observed {
  seen_store : heap;
  seen_dirty : gset string;
  seen_subs : gmap string (list callback)
}.

Inductive event :=
| Published (name : string) (d : detail)
| Invoked (cb : callback) (d : detail) (seen : observed).

(** ** The world: store, closure state of the wrapper, trace *)

Record world := World {
  store : heap;
  dirty : gset string;
  lastErrors : list ValidationError;
  compiledValidator : option Ajv.ValidateFunction;
  _subs : gmap string (list callback);
  trace : list event
}.

Definition with_store (f : heap → heap) (w : world) : world :=
  World (f (store w)) (dirty w) (lastErrors w) (compiledValidator w) (_subs w)
    (trace w).
Definition with_dirty (f : gset string → gset string) (w : world) : world :=
  World (store w) (f (dirty w)) (lastErrors w) (compiledValidator w) (_subs w)
    (trace w).
Definition with_lastErrors (es : list ValidationError) (w : world) : world :=
  World (store w) (dirty w) es (compiledValidator w) (_subs w) (trace w).
Definition with_compiledValidator (c : option Ajv.ValidateFunction) (w : world)
  : world :=
  World (store w) (dirty w) (lastErrors w) c (_subs w) (trace w).
Definition with_subs
  (f : gmap string (list callback) → gmap string (list callback)) (w : world)
  : world :=
  World (store w) (dirty w) (lastErrors w) (compiledValidator w) (f (_subs w))
    (trace w).
Definition with_trace (f : list event → list event) (w : world) : world :=
  World (store w) (dirty w) (lastErrors w) (compiledValidator w) (_subs w)
    (f (trace w)).

Definition observe (w : world) : observed :=
  Observed (store w) (dirty w) (_subs w).

(** *** Operations on the world *)

Inductive outcome (A : Type) :=
| Return (a : A)
| Throw (e : JSError).
Arguments Return {A} a.
Arguments Throw {A} e.

(** [None]: no result (see [deepClone]), or the target is not a plain
    object of the store. *)
Definition M (A : Type) : Type := world → option (outcome A * world).

Definition ret {A} (a : A) : M A := λ w, Some (Return a, w).
Definition throw {A} (e : JSError) : M A := λ w, Some (Throw e, w).
Definition bind {A B} (m : M A) (k : A → M B) : M B := λ w,
  match m w with
  | Some (Return a, w') => k a w'
  | Some (Throw e, w') => Some (Throw e, w')
  | None => None
  end.
Definition gets {A} (f : world → A) : M A := λ w, Some (Return (f w), w).
Definition modify (f : world → world) : M unit := λ w, Some (Return tt, f w).
Definition lift_option {A} (f : world → option A) : M A := λ w,
  match f w with
  | Some a => Some (Return a, w)
  | None => None
  end.

Notation "'let*' x ':=' m 'in' k" := (bind m (λ x, k))
  (at level 10, x name, m at level 100, k at level 200, only parsing).
Notation "m ';;;' k" := (bind m (λ _, k))
  (at level 100, k at level 200, right associativity, only parsing).
Definition when (b : bool) (m : M unit) : M unit := if b then m else ret tt.

(** *** createPubSub *)

(** A [Set] of callbacks in insertion order. *)
Definition set_add (cb : callback) (s : list callback) : list callback :=
  if decide (cb ∈ s) then s else s ++ [cb].
Definition set_delete (cb : callback) (s : list callback) : list callback :=
  filter (λ c, c ≠ cb) s.

Definition _subsFor (name : string) : M (list callback) := λ w,
  match _subs w !! name with
  | Some s => Some (Return s, w)
  | None => Some (Return [], with_subs <[name := []]> w)
  end.

(** [cb(d)]: the call is recorded with what [cb] finds. *)
Definition invoke (cb : callback) (d : detail) : M unit :=
  modify (λ w, with_trace (λ t, t ++ [Invoked cb d (observe w)]) w).

Fixpoint forEach (s : list callback) (f : callback → M unit) : M unit :=
  match s with
  | [] => ret tt
  | cb :: rest => f cb ;;; forEach rest f
  end.

Definition publish (name : string) (d : detail) : M unit :=
  let* s := _subsFor name in
  modify (with_trace (λ t, t ++ [Published name d])) ;;;
  forEach s (λ cb, invoke cb d).

(** The function returned by [subscribe]. *)
Inductive unsubscriber := Unsubscribe (name : string) (cb : callback).

(** [subscribe(event, cb)].  A [callback] is a function, so the guard
    refusing anything else never fires. *)
Definition pubsub_subscribe (name : string) (cb : callback) : M unsubscriber :=
  let* s := _subsFor name in
  modify (with_subs <[name := set_add cb s]>) ;;;
  ret (Unsubscribe name cb).

Definition call_unsubscribe (u : unsubscriber) : M bool :=
  let 'Unsubscribe name cb := u in
  let* s := _subsFor name in
  modify (with_subs <[name := set_delete cb s]>) ;;;
  ret (bool_decide (cb ∈ s)).

Definition unsubscribeAll (name : string) : M bool :=
  let* present := gets (λ w, bool_decide (is_Some (_subs w !! name))) in
  modify (with_subs (delete name)) ;;;
  ret present.

(** ** modelize *)

Section Modelize.

(** The schema documents and the engine compiling them. *)
Variable JSONSchema : Type.
Variable ajv_compile : JSONSchema → Ajv.ValidateFunction.

Record ModelizeOptions := {
  o_schema : option JSONSchema;
  o_validate : option CustomValidator;
  o_strict : option bool
}.

(** The constants of the closure created by one call of [modelize]; its
    variables ([dirty], [lastErrors], [compiledValidator], the
    subscribers) are in the world. *)
Record wrapper := Wrapper {
  source : loc;
  schema : option JSONSchema;
  customValidator : option CustomValidator;
  strict : bool;
  initial : loc
}.

Definition proxy (m : wrapper) : detail := Proxy (source m).
Definition CHANGE_EVENT : string := "change".

Definition object_props (l : loc) : M (list (string * value)) :=
  lift_option (λ w,
    match store w !! l with
    | Some (Obj ps) => Some ps
    | _ => None
    end).

Definition target_props (m : wrapper) : M (list (string * value)) :=
  object_props (source m).

Definition set_target (m : wrapper) (ps : list (string * value)) : M unit :=
  modify (with_store <[source m := Obj ps]>).

Definition clone (fuel : nat) (v : value) : M value := λ w,
  match deepClone fuel (store w) v with
  | Some (v', h') => Some (Return v', with_store (λ _, h') w)
  | None => None
  end.

Definition fresh_world (h : heap) : world := World h ∅ [] None ∅ [].

Definition modelize (fuel : nat) (src : loc) (options : ModelizeOptions)
  (h : heap) : option (outcome wrapper * world) :=
  match h !! src with
  | Some (Obj ps) =>
      match List.find is_reserved (keys_of ps) with
      | Some key =>
          Some (Throw (Error ("Property " +:+ quoted key +:+
                        " is reserved and cannot be used in modelized objects")),
                fresh_world h)
      | None =>
          match deepClone fuel h (VRef src) with
          | Some (VRef ini, h') =>
              Some (Return (Wrapper src (o_schema options) (o_validate options)
                              (default true (o_strict options)) ini),
                    fresh_world h')
          | _ => None
          end
      end
  | _ => None
  end.

Section Handler.

Variable m : wrapper.

Definition getCompiledValidator : M (option Ajv.ValidateFunction) :=
  let* cached := gets compiledValidator in
  match schema m, cached with
  | Some s, None => modify (with_compiledValidator (Some (ajv_compile s)))
  | _, _ => ret tt
  end ;;;
  gets compiledValidator.

Definition doValidate : M (bool * list ValidationError) :=
  let* validator := getCompiledValidator in
  let* h := gets store in
  let errors :=
    match validator with
    | Some validator =>
        let '(valid, errs) := validator h (source m) in
        if negb valid then ajvErrorsToValidationErrors errs else []
    | None => []
    end in
  let errors :=
    match customValidator m with
    | Some customValidator =>
        match customValidator h (source m) with
        | CTrue => errors
        | CMessage result => errors ++ [{| path := "/"; message := result |}]
        end
    | None => errors
    end in
  ret (Nat.eqb (length errors) 0, errors).

Definition notify : M unit := publish CHANGE_EVENT (proxy m).

Definition __validate : M bool :=
  let* r := doValidate in
  modify (with_lastErrors r.2) ;;;
  if negb r.1 then throw (ModelizeValidationError "Validation failed" r.2)
  else ret true.

Definition __reset : M unit :=
  modify (with_dirty (λ _, ∅)) ;;;
  notify.

Fixpoint restore_loop (fuel : nat) (keys : list string) : M unit :=
  match keys with
  | [] => ret tt
  | key :: rest =>
      let* ips := object_props (initial m) in
      let* c := clone fuel (get_prop ips key) in
      let* tps := target_props m in
      set_target m (set_prop tps key c) ;;;
      restore_loop fuel rest
  end.

Definition __resetToInitial (fuel : nat) : M unit :=
  let* ips := object_props (initial m) in
  restore_loop fuel (keys_of ips) ;;;
  modify (with_dirty (λ _, ∅)) ;;;
  notify.

Definition strict_error (key : string) : JSError :=
  Error ("Property " +:+ quoted key +:+
         " does not exist on model (strict mode enabled)").

Fixpoint hydrate_loop (data : loc) (keys : list string) : M unit :=
  match keys with
  | [] => ret tt
  | key :: rest =>
      let* tps := target_props m in
      if strict m && negb (has_key tps key) then throw (strict_error key)
      else
        let oldValue := get_prop tps key in
        let* dps := object_props data in
        let newValue := get_prop dps key in
        set_target m (set_prop tps key newValue) ;;;
        when (negb (strict_eq oldValue newValue))
          (modify (with_dirty (λ d, d ∪ {[key]}))) ;;;
        hydrate_loop data rest
  end.

Record HydrateOptions := { resetDirty : option bool }.

Definition __hydrate (data : loc) (opts : option HydrateOptions) : M unit :=
  let* dps := object_props data in
  hydrate_loop data (keys_of dps) ;;;
  when (default false (opts ≫= resetDirty))
    (modify (with_dirty (λ _, ∅))) ;;;
  notify.

Definition subscribe (cb : callback) : M unsubscriber :=
  invoke cb (proxy m) ;;;
  pubsub_subscribe CHANGE_EVENT cb.

(** What a read through the proxy yields. *)
Inductive got :=
| GotSet (d : gset string)
| GotBool (b : bool)
| GotObject (l : loc)
| GotErrors (es : list ValidationError)
| GotMethod (name : string)
| GotValue (v : value).

(** The target is an ordinary extensible object whose properties are
    writable, configurable data properties: [Reflect.set] and
    [Reflect.deleteProperty] on it succeed. *)
Definition Reflect_get (prop : string) : M value :=
  let* tps := target_props m in ret (get_prop tps prop).

Definition Reflect_set (prop : string) (v : value) : M bool :=
  let* tps := target_props m in
  set_target m (set_prop tps prop v) ;;;
  ret true.

Definition Reflect_deleteProperty (prop : string) : M bool :=
  let* tps := target_props m in
  set_target m (delete_prop tps prop) ;;;
  ret true.

Definition handler_get (prop : string) : M got :=
  if decide (prop = "__dirty") then
    let* d := gets dirty in ret (GotSet d)
  else if decide (prop = "__isDirty") then
    let* d := gets dirty in ret (GotBool (bool_decide (0 < size d)))
  else if decide (prop = "__isValid") then
    let* r := doValidate in
    modify (with_lastErrors r.2) ;;;
    ret (GotBool r.1)
  else if decide (prop = "__source") then ret (GotObject (source m))
  else if decide (prop = "__initial") then ret (GotObject (initial m))
  else if decide (prop = "__errors") then
    let* es := gets lastErrors in ret (GotErrors es)
  else if
    bool_decide (prop ∈ ["__validate"; "__reset"; "__resetToInitial";
                         "__hydrate"; "subscribe"])
  then ret (GotMethod prop)
  else
    let* v := Reflect_get prop in ret (GotValue v).

Definition handler_set (key : string) (v : value) : M bool :=
  if is_reserved key then
    throw (Error ("Cannot set reserved property " +:+ quoted key))
  else
    let* tps := target_props m in
    if strict m && negb (has_key tps key) then throw (strict_error key)
    else
      let oldValue := get_prop tps key in
      let* success := Reflect_set key v in
      when (success && negb (strict_eq oldValue v))
        (modify (with_dirty (λ d, d ∪ {[key]})) ;;; notify) ;;;
      ret success.

Definition handler_deleteProperty (prop : string) : M bool :=
  if strict m then
    throw (Error ("Cannot delete property " +:+ quoted prop +:+
                  " (strict mode enabled)"))
  else
    let* success := Reflect_deleteProperty prop in
    when success notify ;;;
    ret success.

End Handler.

End Modelize.

Arguments Wrapper {JSONSchema}.
Arguments source {JSONSchema}.
Arguments schema {JSONSchema}.
Arguments customValidator {JSONSchema}.
Arguments strict {JSONSchema}.
Arguments initial {JSONSchema}.

Arguments ModelizeOptions : clear implicits.
Arguments o_schema {JSONSchema}.
Arguments o_validate {JSONSchema}.
Arguments o_strict {JSONSchema}.
Arguments proxy {JSONSchema}.
Arguments target_props {JSONSchema}.
Arguments set_target {JSONSchema}.
Arguments modelize {JSONSchema}.
Arguments getCompiledValidator {JSONSchema}.
Arguments doValidate {JSONSchema}.
Arguments notify {JSONSchema}.
Arguments __validate {JSONSchema}.
Arguments __reset {JSONSchema}.
Arguments restore_loop {JSONSchema}.
Arguments __resetToInitial {JSONSchema}.
Arguments hydrate_loop {JSONSchema}.
Arguments __hydrate {JSONSchema}.
Arguments subscribe {JSONSchema}.
Arguments Reflect_get {JSONSchema}.
Arguments Reflect_set {JSONSchema}.
Arguments Reflect_deleteProperty {JSONSchema}.
Arguments handler_get {JSONSchema}.
Arguments handler_set {JSONSchema}.
Arguments handler_deleteProperty {JSONSchema}.

(** ** What a notification looks like in the trace *)

Definition subscribers (name : string) (w : world) : list callback :=
  default [] (_subs w !! name).

(** One notification published in a world that is then left as [w]: the
    publication itself, then one call of each subscriber, each finding the
    world as [w] has it. *)
Definition notification (d : detail) (w : world) : list event :=
  Published CHANGE_EVENT d ::
    ((λ cb, Invoked cb d (observe w)) <$> subscribers CHANGE_EVENT w).

Definition is_invocation (cb : callback) (e : event) : bool :=
  match e with
  | Invoked c _ _ => bool_decide (c = cb)
  | Published _ _ => false
  end.

Definition is_publication (e : event) : bool :=
  match e with
  | Published _ _ => true
  | Invoked _ _ _ => false
  end.

(** Number of calls of [cb] recorded in a trace. *)
Definition invocations (cb : callback) (t : list event) : nat :=
  length (List.filter (is_invocation cb) t).

(** Number of publications recorded in a trace. *)
Definition publications (t : list event) : nat :=
  length (List.filter is_publication t).

(** The compiled validator, once cached, is the one of the wrapper's schema. *)
Definition cache_ok {JSONSchema} (ajv_compile : JSONSchema → Ajv.ValidateFunction)
  (m : wrapper JSONSchema) (w : world) : Prop :=
  match schema m with
  | Some s => compiledValidator w = None ∨ compiledValidator w = Some (ajv_compile s)
  | None => compiledValidator w = None
  end.

(** ** Worlds and error lists the operations produce *)

(** The world [_subsFor] leaves: the event has a subscriber set, possibly
    empty. *)
Definition touched (name : string) (w : world) : world :=
  match _subs w !! name with
  | Some _ => w
  | None => with_subs <[name := []]> w
  end.

(** The world after one notification carrying [d]. *)
Definition published (d : detail) (w : world) : world :=
  with_trace (λ t, t ++ notification d (touched CHANGE_EVENT w))
    (touched CHANGE_EVENT w).

(** The world after the unsubscriber of [cb] has run. *)
Definition unsubscribed (cb : callback) (w : world) : world :=
  with_subs <[CHANGE_EVENT := set_delete cb (subscribers CHANGE_EVENT w)]> w.


Section Derived.
Context {JSONSchema : Type} (ajv_compile : JSONSchema → Ajv.ValidateFunction).
Implicit Types (m : wrapper JSONSchema) (w : world).

(** The world after [target[key] = v]. *)
Definition assigned m (k : string) (v : value) ps w : world :=
with_store <[source m := Obj (set_prop ps k v)]> w.

(** The world after [subscribe(cb)]. *)
Definition subscribed m (cb : callback) w : world :=
with_subs <[CHANGE_EVENT := set_add cb (subscribers CHANGE_EVENT w)]>
  (with_trace (λ t, t ++ [Invoked cb (proxy m) (observe w)]) w).

(** The errors of the schema stage and of the custom stage. *)
Definition schema_errors m (h : heap) : list ValidationError :=
match schema m with
| Some s =>
    let '(valid, errs) := ajv_compile s h (source m) in
    if valid then [] else ajvErrorsToValidationErrors errs
| None => []
end.

Definition custom_errors m (h : heap) : list ValidationError :=
match customValidator m with
| Some cv =>
    match cv h (source m) with
    | CTrue => []
    | CMessage result => [{| path := "/"; message := result |}]
    end
| None => []
end.

End Derived.

(** ** A small schema engine, to run the definitions on examples *)

Module Demo.

(** A schema asking that the number under [key] be at least [bound]. *)
Inductive schema := Minimum (key : string) (bound : Z).

Definition compile (s : schema) : Ajv.ValidateFunction := λ h l,
  let 'Minimum key bound := s in
  match h !! l with
  | Some (Obj ps) =>
      match get_prop ps key with
      | VNumber n =>
          if (bound <=? n)%Z then (true, None)
          else (false,
                Some [ {| Ajv.instancePath := "/" +:+ key;
                          Ajv.message := Some "must be >= minimum" |} ])
      | _ => (true, None)
      end
  | _ => (true, None)
  end.

(** [{ name: "John", age: 30, nested: { value: 1 } }] at location 1. *)
Definition john_props : list (string * value) :=
  [("name", VString "John"); ("age", VNumber 30); ("nested", VRef 2%positive)].

Definition john : heap :=
  <[2%positive := Obj [("value", VNumber 1)]]>
    (<[1%positive := Obj john_props]> ∅).

Definition plain : ModelizeOptions schema :=
  {| o_schema := None; o_validate := None; o_strict := None |}.

Definition status_check : CustomValidator := λ h l,
  match h !! l with
  | Some (Obj ps) =>
      if decide (get_prop ps "name" = VString "admin")
      then CMessage "Reserved name" else CTrue
  | _ => CTrue
  end.

(** The wrapper [modelize(john)] returns with 3 levels of stack, and the
    world it leaves. *)
Definition built : option (outcome (wrapper schema) * world) :=
  modelize 3 1%positive plain john.

Definition jm : wrapper schema :=
  Wrapper 1%positive None None true 4%positive.

Definition jw : world :=
  match built with
  | Some (_, w) => w
  | None => fresh_world ∅
  end.

(** The same closure without strict mode. *)
Definition lm : wrapper schema :=
  Wrapper 1%positive None None false 4%positive.

(** [john] after [john.nested.value = 999], done behind the proxy's back. *)
Definition jw_mutated : world :=
  with_store <[2%positive := Obj [("value", VNumber 999)]]> jw.

(** [john] after [model.name = "Jane"]: [name] is dirty. *)
Definition jw_jane : world :=
  match handler_set jm "name" (VString "Jane") jw with
  | Some (_, w) => w
  | None => jw
  end.

(** [john] after the callbacks 7 and 8 subscribed, in that order. *)
Definition jw_subscribed : world :=
  match (subscribe jm 7 ;;; subscribe jm 8) jw with
  | Some (_, w) => w
  | None => jw
  end.

(** Data for [__hydrate], stored at location 5. *)
Definition with_data (dps : list (string * value)) : world :=
  with_store <[5%positive := Obj dps]> jw.

(** [{ name: "admin", age: -5 }] under a schema and a custom validator
    that both reject it. *)
Definition invalid : heap :=
  <[1%positive := Obj [("name", VString "admin"); ("age", VNumber (-5))]]> ∅.

Definition vm : wrapper schema :=
  Wrapper 1%positive (Some (Minimum "age" 0)) (Some status_check) true
    2%positive.

Definition vw : world := fresh_world invalid.

End Demo.

(** ** Clients of the proxy *)

(** What a client can do with the proxy and with the unsubscriber it got. *)
Inductive operation :=
| OpGet (prop : string)
| OpSet (key : string) (v : value)
| OpDelete (prop : string)
| OpValidate
| OpReset
| OpResetToInitial (fuel : nat)
| OpHydrate (data : loc) (opts : option HydrateOptions)
| OpSubscribe (cb : callback)
| OpUnsubscribe (cb : callback).

(** Validation is what reading [__isValid] and calling [__validate] do. *)
Definition is_validation (op : operation) : bool :=
  match op with
  | OpGet prop => bool_decide (prop = "__isValid")
  | OpValidate => true
  | _ => false
  end.

(** The operations that write to the model. *)
Definition is_write (op : operation) : bool :=
  match op with
  | OpSet _ _ | OpDelete _ | OpHydrate _ _ | OpResetToInitial _ => true
  | _ => false
  end.

Section Clients.
Context {JSONSchema : Type} (ajv_compile : JSONSchema → Ajv.ValidateFunction).
Implicit Types (m : wrapper JSONSchema) (w : world).

(** One operation, its result dropped: what matters is the world it leaves
    and whether it returns or throws. *)
Definition perform m (op : operation) : M unit :=
  match op with
  | OpGet prop => handler_get ajv_compile m prop ;;; ret tt
  | OpSet key v => handler_set m key v ;;; ret tt
  | OpDelete prop => handler_deleteProperty m prop ;;; ret tt
  | OpValidate => __validate ajv_compile m ;;; ret tt
  | OpReset => __reset m
  | OpResetToInitial fuel => __resetToInitial m fuel
  | OpHydrate data opts => __hydrate m data opts
  | OpSubscribe cb => subscribe m cb ;;; ret tt
  | OpUnsubscribe cb => call_unsubscribe (Unsubscribe CHANGE_EVENT cb) ;;; ret tt
  end.

(** A step of the proxy: some operation returns or throws. *)
Inductive proxy_step m : relation world :=
| proxy_step_intro op r w w' :
    perform m op w = Some (r, w') → proxy_step m w w'.

End Clients.

(** In-place mutation keeps an object an object and an array an array. *)
Definition same_kind (o o' : obj) : Prop :=
  match o, o' with
  | Obj _, Obj _ | Arr _, Arr _ => True
  | _, _ => False
  end.

Section Client_steps.
Context {JSONSchema : Type} (ajv_compile : JSONSchema → Ajv.ValidateFunction).

(** A step of a client that also works behind the proxy's back: it may
    mutate in place any object outside the region [R] and create objects. *)
Inductive client_step (m : wrapper JSONSchema) (R : loc → bool)
  : relation world :=
| by_proxy w w' : proxy_step ajv_compile m w w' → client_step m R w w'
| in_place l o o' w :
    R l = false → store w !! l = Some o → same_kind o o' →
    client_step m R w (with_store <[l := o']> w)
| new_object o w :
    client_step m R w (with_store (λ h, (alloc h o).2) w).

End Client_steps.

(** [op] relates the world it is given to the world it leaves by [P],
    whether it returns or throws. *)
Definition preserves {A} (P : relation world) (op : M A) : Prop :=
  ∀ w r w', op w = Some (r, w') → P w w'.

(** The container [o] has the reference [l] among its members. *)
Definition mentions (l : loc) (o : obj) : Prop :=
  match o with
  | Obj ps => VRef l ∈ ps.*2
  | Arr es => VRef l ∈ es
  end.

(** What one [publish(name, d)] adds to the trace of a world then left as
    [w]. *)
Definition calls (name : string) (d : detail) (w : world) : list event :=
  Published name d ::
    ((λ cb, Invoked cb d (observe w)) <$> subscribers name w).

(** Every subscriber set is duplicate-free. *)
Definition subs_wf (w : world) : Prop :=
  ∀ name s, _subs w !! name = Some s → NoDup s.

(** The own keys of the model, when it is a plain object of the store. *)
Definition model_keys {JSONSchema} (m : wrapper JSONSchema) (w : world)
  : option (list string) :=
  match store w !! source m with
  | Some (Obj ps) => Some (keys_of ps)
  | _ => None
  end.

(** *** What a relation between worlds tolerates

    A relation tolerates a primitive change of the world when it relates
    every world to the world so changed.  An operation built from
    primitives that [P] tolerates preserves [P]. *)

Section Tolerates.
Context {JSONSchema : Type} (ajv_compile : JSONSchema → Ajv.ValidateFunction).
Context (P : relation world) (m : wrapper JSONSchema).

(** [target[key] = ...] and [delete target[key]] *)
Definition tolerates_assign : Prop :=
  ∀ w ps, P w (with_store <[source m := Obj ps]> w).
(** new objects *)
Definition tolerates_alloc : Prop :=
  ∀ w (h' : heap), store w ⊆ h' → P w (with_store (λ _, h') w).
(** [dirty.add(key)] *)
Definition tolerates_dirty_add : Prop :=
  ∀ w k, P w (with_dirty (λ d, d ∪ {[k]}) w).
(** [dirty.clear()] *)
Definition tolerates_dirty_clear : Prop :=
  ∀ w, P w (with_dirty (λ _, ∅) w).
(** [lastErrors = errors] *)
Definition tolerates_errors : Prop :=
  ∀ w es, P w (with_lastErrors es w).
(** the first compilation of the schema *)
Definition tolerates_compile : Prop :=
  ∀ w s, schema m = Some s → compiledValidator w = None →
         P w (with_compiledValidator (Some (ajv_compile s)) w).
(** [notify()] *)
Definition tolerates_notify : Prop :=
  ∀ w, P w (published (proxy m) w).
(** [subscribe(cb)] and the unsubscriber *)
Definition tolerates_subscribe : Prop :=
  ∀ w cb, P w (subscribed m cb w).
Definition tolerates_unsubscribe : Prop :=
  ∀ w cb, P w (unsubscribed cb w).

End Tolerates.

(** The operations that empty the dirty set. *)
Definition clears_dirty (op : operation) : bool :=
  match op with
  | OpReset | OpResetToInitial _ => true
  | OpHydrate _ opts => default false (opts ≫= resetDirty)
  | _ => false
  end.

(** The operations that add to the dirty set. *)
Definition marks_dirty (op : operation) : bool :=
  match op with
  | OpSet _ _ | OpHydrate _ _ => true
  | _ => false
  end.

(** The operations that change who is subscribed. *)
Definition is_subscription (op : operation) : bool :=
  match op with
  | OpSubscribe _ | OpUnsubscribe _ => true
  | _ => false
  end.

(** *** Relations between the world an operation is given and the world
    it leaves *)

Section Relations.
Context {JSONSchema : Type} (ajv_compile : JSONSchema → Ajv.ValidateFunction).
Implicit Types (m : wrapper JSONSchema) (w : world).

(** The objects other than the model are kept, and the model stays a plain
    object. *)
Definition kept m : relation world := λ w w',
  (∀ l o, l ≠ source m → store w !! l = Some o → store w' !! l = Some o) ∧
  (is_Some (model_keys m w) → is_Some (model_keys m w')).

(** The store is as before. *)
Definition same_store : relation world := λ w w', store w' = store w.

(** The last errors and the cache of the compiled validator are as
    before. *)
Definition same_validation : relation world := λ w w',
  lastErrors w' = lastErrors w ∧ compiledValidator w' = compiledValidator w.

(** Everything but the last errors and the cache is as before. *)
Definition same_but_validation : relation world := λ w w',
  store w' = store w ∧ dirty w' = dirty w ∧ _subs w' = _subs w ∧
  trace w' = trace w.

(** The dirty set only gains keys; it only loses keys. *)
Definition dirty_grows : relation world := λ w w', dirty w ⊆ dirty w'.
Definition dirty_shrinks : relation world := λ w w', dirty w' ⊆ dirty w.

(** The subscribers of every event are as before. *)
Definition same_subscribers : relation world := λ w w',
  ∀ name, subscribers name w' = subscribers name w.

(** Nothing is added to the trace. *)
Definition quiet : relation world := λ w w', trace w' = trace w.

(** The invariants validation and subscription rest on. *)
Definition sound m : relation world := λ w w',
  (cache_ok ajv_compile m w → cache_ok ajv_compile m w') ∧
  (subs_wf w → subs_wf w').

(** The model has the keys [K], in order, followed by names it inherits;
    only keys among [K] and inherited names are dirty. *)
Definition shaped m (K : list string) (w : world) : Prop :=
  (∃ extra, model_keys m w = Some (K ++ extra) ∧
            ∀ k, k ∈ extra → k ∈ keys_of Object_prototype) ∧
  ∀ k, k ∈ dirty w → k ∈ K ∨ k ∈ keys_of Object_prototype.

(** ... and stays so. *)
Definition stays_shaped m K : relation world := λ w w',
  shaped m K w → shaped m K w'.

(** What every step of a client keeps: the objects [w1] has in the region
    [R], the model as a plain object, the cache and the subscriber sets in
    order. *)
Definition in_order m (R : loc → bool) (w1 w : world) : Prop :=
  (∀ l o, R l = true → l ≠ source m → store w1 !! l = Some o →
          store w !! l = Some o) ∧
  is_Some (model_keys m w) ∧
  cache_ok ajv_compile m w ∧ subs_wf w.

End Relations.

(** * Properties *)

(** ** Own properties *)

Section Props.
Context {A : Type}.
Implicit Types (ps : list (string * A)) (k : string) (v : A).

Lemma lookup_prop_None ps k : lookup_prop ps k = None ↔ k ∉ keys_of ps.
Proof.
  induction ps as [|[k' v'] ps IH]; simpl.
  - split; [intros _; apply not_elem_of_nil | done].
  - rewrite not_elem_of_cons. destruct (decide (k' = k)) as [->|Hne].
    + split; [done | by intros [? _]].
    + rewrite IH. naive_solver.
Qed.

Lemma lookup_prop_is_Some ps k : is_Some (lookup_prop ps k) ↔ k ∈ keys_of ps.
Proof.
  rewrite <- not_eq_None_Some, lookup_prop_None.
  split; [apply dec_stable | auto].
Qed.

Lemma lookup_set_prop_eq ps k v : lookup_prop (set_prop ps k v) k = Some v.
Proof.
  induction ps as [|[k' v'] ps IH]; simpl.
  - by rewrite decide_True.
  - destruct (decide (k' = k)) as [->|Hne]; simpl.
    + by rewrite decide_True.
    + by rewrite decide_False.
Qed.

Lemma lookup_set_prop_ne ps k k' v :
  k' ≠ k → lookup_prop (set_prop ps k v) k' = lookup_prop ps k'.
Proof.
  intros Hne. induction ps as [|[k0 v0] ps IH]; simpl.
  - by rewrite decide_False.
  - destruct (decide (k0 = k)) as [->|Hne0]; simpl.
    + by rewrite !decide_False.
    + by rewrite IH.
Qed.

Lemma keys_of_set_prop ps k k' v :
  k' ∈ keys_of (set_prop ps k v) ↔ k' = k ∨ k' ∈ keys_of ps.
Proof.
  rewrite <- !lookup_prop_is_Some.
  destruct (decide (k' = k)) as [->|Hne].
  - rewrite lookup_set_prop_eq. naive_solver.
  - rewrite lookup_set_prop_ne by done. naive_solver.
Qed.

Lemma lookup_delete_prop_eq ps k : lookup_prop (delete_prop ps k) k = None.
Proof.
  induction ps as [|[k' v'] ps IH]; [done|].
  unfold delete_prop in *. rewrite filter_cons. simpl.
  destruct (decide (k' ≠ k)) as [Hne|]; [|done].
  simpl. by rewrite decide_False.
Qed.

Lemma lookup_delete_prop_ne ps k k' :
  k' ≠ k → lookup_prop (delete_prop ps k) k' = lookup_prop ps k'.
Proof.
  intros Hne. induction ps as [|[k0 v0] ps IH]; [done|].
  unfold delete_prop in *. rewrite filter_cons. simpl.
  destruct (decide (k0 ≠ k)) as [Hne0|Heq]; simpl.
  - by rewrite IH.
  - apply dec_stable in Heq as ->. by rewrite decide_False.
Qed.

End Props.

(** ** Own and inherited properties *)

Lemma has_key_true ps k :
  has_key ps k = true ↔ k ∈ keys_of ps ∨ k ∈ keys_of Object_prototype.
Proof.
  unfold has_key. by rewrite orb_true_iff, !bool_decide_eq_true.
Qed.

Lemma has_key_false ps k :
  has_key ps k = false ↔ (k ∉ keys_of ps) ∧ (k ∉ keys_of Object_prototype).
Proof.
  unfold has_key. by rewrite orb_false_iff, !bool_decide_eq_false.
Qed.

Lemma has_key_own ps k : k ∈ keys_of ps → has_key ps k = true.
Proof. intros H. apply has_key_true. by left. Qed.

Lemma get_prop_own ps k v : lookup_prop ps k = Some v → get_prop ps k = v.
Proof. intros H. unfold get_prop. by rewrite H. Qed.

(** A property the object neither has nor inherits reads as [undefined]. *)
Lemma get_prop_absent ps k : has_key ps k = false → get_prop ps k = VUndefined.
Proof.
  intros [Hown Hinh]%has_key_false. unfold get_prop.
  apply lookup_prop_None in Hown, Hinh. by rewrite Hown, Hinh.
Qed.

Lemma get_set_prop_eq ps k v : get_prop (set_prop ps k v) k = v.
Proof. apply get_prop_own, lookup_set_prop_eq. Qed.

Lemma has_key_set_prop ps k k' v :
  has_key ps k' = true → has_key (set_prop ps k v) k' = true.
Proof.
  rewrite !has_key_true, keys_of_set_prop. naive_solver.
Qed.


Lemma strict_eq_refl v : v ≠ VNaN → strict_eq v v = true.
Proof. intros Hv. destruct v; simpl; by rewrite ?bool_decide_eq_true. Qed.

Lemma strict_eq_true a b : strict_eq a b = true → a = b.
Proof.
  destruct a, b; simpl; rewrite ?bool_decide_eq_true; congruence.
Qed.

(** ** Running the publish/subscribe primitive *)

Lemma observe_with_trace f w : observe (with_trace f w) = observe w.
Proof. done. Qed.

Lemma forEach_invoke s d w :
  forEach s (λ cb, invoke cb d) w =
  Some (Return tt,
        with_trace (λ t, t ++ ((λ cb, Invoked cb d (observe w)) <$> s)) w).
Proof.
  revert w. induction s as [|cb s IH]; intros w; simpl.
  - unfold ret, with_trace. destruct w; simpl. by rewrite app_nil_r.
  - unfold bind, invoke, modify. rewrite IH.
    unfold with_trace. destruct w; simpl. by rewrite <- app_assoc.
Qed.

Lemma _subsFor_run name w :
  _subsFor name w = Some (Return (subscribers name w), touched name w).
Proof.
  unfold _subsFor, subscribers, touched. by destruct (_subs w !! name).
Qed.

Lemma subscribers_touched name w :
  subscribers name (touched name w) = subscribers name w.
Proof.
  unfold subscribers, touched.
  destruct (_subs w !! name) eqn:E; simpl; [by rewrite E|].
  by rewrite lookup_insert_eq.
Qed.

Lemma publish_run d w :
  publish CHANGE_EVENT d w = Some (Return tt, published d w).
Proof.
  unfold publish, bind. rewrite _subsFor_run. unfold modify at 1.
  rewrite forEach_invoke. unfold published, notification.
  rewrite subscribers_touched. unfold with_trace, observe.
  destruct (touched CHANGE_EVENT w); simpl. by rewrite <- app_assoc.
Qed.

Lemma published_spec d w :
  store (published d w) = store w ∧
  dirty (published d w) = dirty w ∧
  lastErrors (published d w) = lastErrors w ∧
  compiledValidator (published d w) = compiledValidator w ∧
  subscribers CHANGE_EVENT (published d w) = subscribers CHANGE_EVENT w ∧
  trace (published d w) = trace w ++ notification d (published d w).
Proof.
  unfold published, notification.
  pose proof (subscribers_touched CHANGE_EVENT w) as Hs.
  unfold subscribers, touched in *.
  destruct (_subs w !! CHANGE_EVENT) eqn:E; destruct w; simpl in *; done.
Qed.

Lemma publications_notification d w : publications (notification d w) = 1.
Proof.
  unfold publications, notification. simpl. f_equal.
  induction (subscribers CHANGE_EVENT w); simpl; auto.
Qed.

Lemma invocations_app cb t1 t2 :
  invocations cb (t1 ++ t2) = invocations cb t1 + invocations cb t2.
Proof. unfold invocations. by rewrite List.filter_app, length_app. Qed.

Lemma invocations_fmap_notin cb d o (s : list callback) :
  cb ∉ s → invocations cb ((λ c, Invoked c d o) <$> s) = 0.
Proof.
  unfold invocations. induction s as [|c s IH]; [done|].
  rewrite not_elem_of_cons. intros [Hne Hnotin]. simpl.
  rewrite bool_decide_eq_false_2 by done. auto.
Qed.

Lemma invocations_fmap_NoDup cb d o (s : list callback) :
  NoDup s → cb ∈ s → invocations cb ((λ c, Invoked c d o) <$> s) = 1.
Proof.
  induction s as [|c s IH]; [by intros _ ?%elem_of_nil|].
  rewrite NoDup_cons, elem_of_cons. intros [Hnotin Hnd] Hin.
  change (invocations cb ([Invoked c d o] ++ ((λ c, Invoked c d o) <$> s)) = 1).
  rewrite invocations_app. unfold invocations at 1. simpl.
  destruct (decide (c = cb)) as [->|Hne].
  - rewrite bool_decide_eq_true_2 by done.
    by rewrite invocations_fmap_notin.
  - rewrite bool_decide_eq_false_2 by done. simpl. apply IH; [done|].
    destruct Hin as [->|]; done.
Qed.

Lemma invocations_notification_in cb d w :
  NoDup (subscribers CHANGE_EVENT w) → cb ∈ subscribers CHANGE_EVENT w →
  invocations cb (notification d w) = 1.
Proof.
  intros Hnd Hin. unfold notification.
  change (invocations cb ([Published CHANGE_EVENT d] ++
    ((λ c, Invoked c d (observe w)) <$> subscribers CHANGE_EVENT w)) = 1).
  rewrite invocations_app. by rewrite invocations_fmap_NoDup.
Qed.

Lemma invocations_notification_notin cb d w :
  cb ∉ subscribers CHANGE_EVENT w → invocations cb (notification d w) = 0.
Proof.
  intros Hnotin. unfold notification.
  change (invocations cb ([Published CHANGE_EVENT d] ++
    ((λ c, Invoked c d (observe w)) <$> subscribers CHANGE_EVENT w)) = 0).
  rewrite invocations_app. by rewrite invocations_fmap_notin.
Qed.

(** ** The proxy handler *)

Section Handler_properties.
Context {JSONSchema : Type} (ajv_compile : JSONSchema → Ajv.ValidateFunction).
Implicit Types (m : wrapper JSONSchema) (w : world) (k : string) (v : value).

Lemma object_props_run l w ps :
  store w !! l = Some (Obj ps) → object_props l w = Some (Return ps, w).
Proof. intros H. unfold object_props, lift_option. by rewrite H. Qed.

Lemma target_props_run m w ps :
  store w !! source m = Some (Obj ps) →
  target_props m w = Some (Return ps, w).
Proof. apply object_props_run. Qed.

Lemma notify_run m w : notify m w = Some (Return tt, published (proxy m) w).
Proof. apply publish_run. Qed.

Lemma Reflect_set_run m w ps k v :
  store w !! source m = Some (Obj ps) →
  Reflect_set m k v w = Some (Return true, assigned m k v ps w).
Proof.
  intros H. unfold Reflect_set, bind. by rewrite (target_props_run _ _ ps).
Qed.

Lemma store_assigned m k v ps w :
  store (assigned m k v ps w) !! source m = Some (Obj (set_prop ps k v)).
Proof. simpl. apply lookup_insert_eq. Qed.

(** An accepted write. *)
Lemma handler_set_run m w ps k v :
  store w !! source m = Some (Obj ps) →
  is_reserved k = false →
  strict m && negb (has_key ps k) = false →
  handler_set m k v w =
  Some (Return true,
        if strict_eq (get_prop ps k) v then assigned m k v ps w
        else published (proxy m)
               (with_dirty (λ d, d ∪ {[k]}) (assigned m k v ps w))).
Proof.
  intros Hps Hres Hstrict. unfold handler_set. rewrite Hres.
  unfold bind at 1. rewrite (target_props_run _ _ ps) by done.
  rewrite Hstrict. unfold bind at 1. rewrite (Reflect_set_run _ _ ps) by done.
  simpl. destruct (strict_eq (get_prop ps k) v); simpl.
  - done.
  - unfold bind, modify. by rewrite notify_run.
Qed.

Lemma strict_eq_self_false a v : strict_eq v v = false → strict_eq a v = false.
Proof.
  destruct (decide (v = VNaN)) as [->|Hv]; [by destruct a|].
  by rewrite strict_eq_refl.
Qed.

(** C1.  A write of [v] under a non-reserved key [k] present on the model
    stores [v] in the model.  When the old value is not strictly equal to
    [v], [k] joins the dirty set and exactly one notification carrying the
    proxy is published; when it is, the dirty set and the trace are left
    as they were.  Writing the same value a second time leaves the dirty
    set as the first write left it. *)
Theorem C1_write_tracks_changes m w ps k v :
  store w !! source m = Some (Obj ps) →
  is_reserved k = false →
  k ∈ keys_of ps →
  ∃ w1 w2,
    handler_set m k v w = Some (Return true, w1) ∧
    store w1 = <[source m := Obj (set_prop ps k v)]> (store w) ∧
    get_prop (set_prop ps k v) k = v ∧
    (strict_eq (get_prop ps k) v = false →
       dirty w1 = dirty w ∪ {[k]} ∧
       trace w1 = trace w ++ notification (proxy m) w1 ∧
       publications (notification (proxy m) w1) = 1) ∧
    (strict_eq (get_prop ps k) v = true →
       dirty w1 = dirty w ∧ trace w1 = trace w) ∧
    handler_set m k v w1 = Some (Return true, w2) ∧
    dirty w2 = dirty w1.
Proof.
  intros Hps Hres Hin.
  assert (Hstrict : ∀ ps' : list (string * value), k ∈ keys_of ps' →
            strict m && negb (has_key ps' k) = false).
  { intros ps' H. apply has_key_own in H. rewrite H. apply andb_false_r. }
  pose proof (handler_set_run m w ps k v Hps Hres (Hstrict _ Hin)) as Hrun.
  set (w1 := if strict_eq (get_prop ps k) v then assigned m k v ps w
             else published (proxy m)
                    (with_dirty (λ d, d ∪ {[k]}) (assigned m k v ps w))) in *.
  assert (Hst1 : store w1 = <[source m := Obj (set_prop ps k v)]> (store w)).
  { subst w1. destruct (strict_eq (get_prop ps k) v); [done|].
    by destruct (published_spec (proxy m)
         (with_dirty (λ d, d ∪ {[k]}) (assigned m k v ps w))) as [-> _]. }
  assert (Hps1 : store w1 !! source m = Some (Obj (set_prop ps k v))).
  { rewrite Hst1. apply lookup_insert_eq. }
  assert (Hin1 : k ∈ keys_of (set_prop ps k v)).
  { apply keys_of_set_prop. by left. }
  pose proof (handler_set_run m w1 _ k v Hps1 Hres (Hstrict _ Hin1)) as Hrun2.
  eexists w1, _. split; [exact Hrun|]. split; [exact Hst1|].
  split; [apply get_set_prop_eq|].
  assert (Hdirty : strict_eq (get_prop ps k) v = false →
            dirty w1 = dirty w ∪ {[k]}).
  { intros E. subst w1. rewrite E.
    by destruct (published_spec (proxy m)
         (with_dirty (λ d, d ∪ {[k]}) (assigned m k v ps w)))
      as (_ & -> & _). }
  split; [|split; [|split; [exact Hrun2|]]].
  - intros E. split; [by apply Hdirty|].
    split; [|apply publications_notification].
    subst w1. rewrite E.
    by destruct (published_spec (proxy m)
         (with_dirty (λ d, d ∪ {[k]}) (assigned m k v ps w)))
      as (_ & _ & _ & _ & _ & ->).
  - intros E. subst w1. by rewrite E.
  - rewrite get_set_prop_eq.
    destruct (strict_eq v v) eqn:E; [done|].
    destruct (published_spec (proxy m)
         (with_dirty (λ d, d ∪ {[k]}) (assigned m k v (set_prop ps k v) w1)))
      as (_ & -> & _).
    simpl. rewrite (Hdirty (strict_eq_self_false _ _ E)). set_solver.
Qed.

(** C9.  A write that is refused, because the key is reserved or because
    strict mode is on and the key is absent from the model ([key in target]
    fails: the model neither has the key nor inherits it), throws and
    leaves the whole world (model, dirty set, last errors, subscribers,
    trace) as it was.  No write throws for another reason, and no thrown
    write changes the world. *)
Theorem C9_failed_write_is_atomic m w k v :
  (is_reserved k = true →
     handler_set m k v w =
     Some (Throw (Error ("Cannot set reserved property " +:+ quoted k)), w)) ∧
  (∀ ps, is_reserved k = false → strict m = true →
     store w !! source m = Some (Obj ps) → has_key ps k = false →
     handler_set m k v w = Some (Throw (strict_error k), w)) ∧
  (∀ e w', handler_set m k v w = Some (Throw e, w') →
     w' = w ∧
     (is_reserved k = true ∨
      (strict m = true ∧
       ∃ ps, store w !! source m = Some (Obj ps) ∧ has_key ps k = false))).
Proof.
  split; [|split].
  - intros Hres. unfold handler_set. by rewrite Hres.
  - intros ps Hres Hstrict Hps Hnotin. unfold handler_set. rewrite Hres.
    unfold bind. rewrite (target_props_run _ _ ps) by done.
    by rewrite Hstrict, Hnotin.
  - intros e w' H.
    destruct (is_reserved k) eqn:Hres.
    { unfold handler_set in H. rewrite Hres in H. unfold throw in H.
      split; [congruence|by left]. }
    destruct (store w !! source m) as [[ps|]|] eqn:Hps.
    + destruct (strict m && negb (has_key ps k)) eqn:Hstrict.
      * unfold handler_set, bind in H.
        rewrite Hres, (target_props_run _ _ ps), Hstrict in H by done.
        unfold throw in H. split; [congruence|]. right.
        apply andb_true_iff in Hstrict as [Hs Hk].
        apply negb_true_iff in Hk. split; [done|]. by exists ps.
      * by rewrite (handler_set_run m w ps k v Hps Hres Hstrict) in H.
    + unfold handler_set, bind, target_props, object_props, lift_option in H.
      by rewrite Hres, Hps in H.
    + unfold handler_set, bind, target_props, object_props, lift_option in H.
      by rewrite Hres, Hps in H.
Qed.

(** C7.  In strict mode a delete through the proxy throws and leaves the
    world as it was.  Otherwise the property is removed from the model,
    the delete succeeds, one notification carrying the proxy is published
    (whether or not the property existed), and the dirty set is not
    touched. *)
Theorem C7_delete m w prop :
  (strict m = true →
     handler_deleteProperty m prop w =
     Some (Throw (Error ("Cannot delete property " +:+ quoted prop +:+
                         " (strict mode enabled)")), w)) ∧
  (∀ ps, strict m = false → store w !! source m = Some (Obj ps) →
     ∃ w',
       handler_deleteProperty m prop w = Some (Return true, w') ∧
       store w' = <[source m := Obj (delete_prop ps prop)]> (store w) ∧
       lookup_prop (delete_prop ps prop) prop = None ∧
       dirty w' = dirty w ∧
       trace w' = trace w ++ notification (proxy m) w' ∧
       publications (notification (proxy m) w') = 1).
Proof.
  split.
  - intros Hs. unfold handler_deleteProperty. by rewrite Hs.
  - intros ps Hs Hps. unfold handler_deleteProperty. rewrite Hs.
    unfold bind at 1. unfold Reflect_deleteProperty, bind at 1.
    rewrite (target_props_run _ _ ps) by done. simpl.
    unfold bind. rewrite notify_run. eexists. split; [done|].
    destruct (published_spec (proxy m)
                (with_store <[source m:=Obj (delete_prop ps prop)]> w))
      as (-> & -> & _ & _ & _ & ->).
    repeat split; auto using lookup_delete_prop_eq, publications_notification.
Qed.

(** *** Validation *)

Lemma with_compiledValidator_id w :
  with_compiledValidator (compiledValidator w) w = w.
Proof. by destruct w. Qed.

Lemma getCompiledValidator_run m w :
  cache_ok ajv_compile m w →
  getCompiledValidator ajv_compile m w =
  Some (Return (ajv_compile <$> schema m),
        with_compiledValidator (ajv_compile <$> schema m) w).
Proof.
  unfold cache_ok, getCompiledValidator, bind, gets.
  destruct (schema m) as [s|]; simpl.
  - intros [E|E]; rewrite E; simpl; [done|].
    by rewrite <- E, with_compiledValidator_id.
  - intros E. rewrite E. simpl. by rewrite <- E, with_compiledValidator_id.
Qed.

Lemma doValidate_run m w :
  cache_ok ajv_compile m w →
  let errors := schema_errors ajv_compile m (store w) ++ custom_errors m (store w) in
  doValidate ajv_compile m w =
  Some (Return (Nat.eqb (length errors) 0, errors),
        with_compiledValidator (ajv_compile <$> schema m) w).
Proof.
  intros Hc. unfold doValidate. unfold bind at 1.
  rewrite getCompiledValidator_run by done.
  unfold bind, gets, ret, schema_errors, custom_errors. simpl.
  destruct (schema m) as [s|]; simpl.
  - destruct (ajv_compile s (store w) (source m)) as [[] errs]; simpl;
      destruct (customValidator m) as [cv|]; simpl;
      try destruct (cv (store w) (source m)); simpl;
      by rewrite ?app_nil_r.
  - destruct (customValidator m) as [cv|]; simpl;
      try destruct (cv (store w) (source m)); by simpl.
Qed.

Lemma getCompiledValidator_total m w :
  ∃ c, getCompiledValidator ajv_compile m w =
       Some (Return c, with_compiledValidator c w).
Proof.
  unfold getCompiledValidator, bind, gets.
  destruct (schema m) as [s|], (compiledValidator w) as [c|] eqn:E; simpl.
  2: by eexists.
  all: rewrite E; eexists; by rewrite <- E, with_compiledValidator_id.
Qed.

(** Whatever the cache holds, a validation pass returns, and changes at
    most the cache; it is valid exactly when it reports no error. *)
Lemma doValidate_total m w :
  ∃ r c, doValidate ajv_compile m w =
         Some (Return r, with_compiledValidator c w) ∧
         (r.1 = true ↔ r.2 = []).
Proof.
  destruct (getCompiledValidator_total m w) as [c Hc].
  unfold doValidate. unfold bind at 1. rewrite Hc.
  unfold bind, gets, ret. eexists (_, _), c. split; [reflexivity|].
  simpl. rewrite Nat.eqb_eq. apply length_zero_iff_nil.
Qed.

Lemma __validate_run m w r w1 :
  doValidate ajv_compile m w = Some (Return r, w1) →
  __validate ajv_compile m w =
  Some (if r.1 then Return true
        else Throw (ModelizeValidationError "Validation failed" r.2),
        with_lastErrors r.2 w1).
Proof.
  intros H. unfold __validate, bind. rewrite H. unfold modify.
  by destruct r as [[] es].
Qed.

Lemma handler_get_isValid_run m w r w1 :
  doValidate ajv_compile m w = Some (Return r, w1) →
  handler_get ajv_compile m "__isValid" w =
  Some (Return (GotBool r.1), with_lastErrors r.2 w1).
Proof. intros H. unfold handler_get. simpl. unfold bind. by rewrite H. Qed.

(** C2.  With a schema and a custom validator configured, one validation
    pass runs both.  When the schema rejects the model, exposing the
    records [errs] (the engine exposes at least one on a rejection), and
    the custom validator answers the message [msg], the pass reports the
    converted schema errors followed by the single entry [("/", msg)]: at
    least two errors.  Reading [__isValid] then yields [false] and
    [__validate] throws, each leaving that list as the last errors.  Any
    pass is valid exactly when its error list is empty. *)
Theorem C2_validation_runs_both_stages m w s cv errs msg :
  schema m = Some s →
  customValidator m = Some cv →
  cache_ok ajv_compile m w →
  ajv_compile s (store w) (source m) = (false, Some errs) →
  errs ≠ [] →
  cv (store w) (source m) = CMessage msg →
  let merged := ajvErrorsToValidationErrors (Some errs) ++
                [{| path := "/"; message := msg |}] in
  (2 ≤ length merged)%nat ∧
  length merged = S (length errs) ∧
  (∃ w1, doValidate ajv_compile m w = Some (Return (false, merged), w1)) ∧
  (∃ w1, handler_get ajv_compile m "__isValid" w =
           Some (Return (GotBool false), w1) ∧ lastErrors w1 = merged) ∧
  (∃ w1, __validate ajv_compile m w =
           Some (Throw (ModelizeValidationError "Validation failed" merged), w1)
         ∧ lastErrors w1 = merged) ∧
  (∀ w0 r w1, doValidate ajv_compile m w0 = Some (Return r, w1) →
     (r.1 = true ↔ r.2 = [])).
Proof.
  intros Hs Hcv Hc Hrej Hne Hmsg merged.
  assert (Hlen : length merged = S (length errs)).
  { unfold merged. simpl. rewrite length_app, length_fmap. simpl. lia. }
  assert (Hrun : doValidate ajv_compile m w =
                 Some (Return (false, merged),
                       with_compiledValidator (ajv_compile <$> schema m) w)).
  { rewrite doValidate_run by done. unfold schema_errors, custom_errors.
    rewrite Hs, Hcv, Hrej, Hmsg. fold merged.
    by rewrite Hlen. }
  split; [|split; [done|split; [by eexists|split; [|split]]]].
  - rewrite Hlen. destruct errs; [done|simpl; lia].
  - eexists. by rewrite (handler_get_isValid_run _ _ _ _ Hrun).
  - eexists. by rewrite (__validate_run _ _ _ _ Hrun).
  - intros w0 r w1 H. destruct (doValidate_total m w0) as (r' & c & H' & Hiff).
    congruence.
Qed.

(** With nothing configured, a validation pass reports no error. *)
Lemma unconfigured_pass m w :
  schema m = None → customValidator m = None → compiledValidator w = None →
  doValidate ajv_compile m w = Some (Return (true, []), w).
Proof.
  intros Hs Hcv Hc.
  rewrite doValidate_run by (unfold cache_ok; by rewrite Hs).
  unfold schema_errors, custom_errors. rewrite Hs, Hcv. simpl.
  by rewrite <- Hc, with_compiledValidator_id.
Qed.

(** C3, as the code has it.  With neither a schema nor a custom validator
    configured, [__validate] returns [true] without throwing and reading
    [__isValid] yields [true]; each leaves the last errors empty. *)
Theorem C3_unconfigured_is_trivially_valid m w :
  schema m = None →
  customValidator m = None →
  compiledValidator w = None →
  __validate ajv_compile m w = Some (Return true, with_lastErrors [] w) ∧
  handler_get ajv_compile m "__isValid" w =
    Some (Return (GotBool true), with_lastErrors [] w).
Proof.
  intros Hs Hcv Hc.
  pose proof (unconfigured_pass m w Hs Hcv Hc) as Hrun.
  split.
  - by rewrite (__validate_run _ _ _ _ Hrun).
  - by rewrite (handler_get_isValid_run _ _ _ _ Hrun).
Qed.

(** C10.  Reading [__dirty], [__isDirty], [__source], [__initial],
    [__errors] or a key that is not reserved returns and leaves the whole
    world as it was.  Reading [__isValid] returns the verdict of a fresh
    validation pass and stores its errors as the last errors; the store,
    the dirty set, the subscribers and the trace are as before. *)
Theorem C10_reads_do_not_mutate m w :
  handler_get ajv_compile m "__dirty" w = Some (Return (GotSet (dirty w)), w) ∧
  handler_get ajv_compile m "__isDirty" w =
    Some (Return (GotBool (bool_decide (0 < size (dirty w)))), w) ∧
  handler_get ajv_compile m "__source" w =
    Some (Return (GotObject (source m)), w) ∧
  handler_get ajv_compile m "__initial" w =
    Some (Return (GotObject (initial m)), w) ∧
  handler_get ajv_compile m "__errors" w =
    Some (Return (GotErrors (lastErrors w)), w) ∧
  (∀ prop ps, is_reserved prop = false →
     store w !! source m = Some (Obj ps) →
     handler_get ajv_compile m prop w =
     Some (Return (GotValue (get_prop ps prop)), w)) ∧
  (∃ valid errors w1 w',
     doValidate ajv_compile m w = Some (Return (valid, errors), w1) ∧
     handler_get ajv_compile m "__isValid" w =
       Some (Return (GotBool valid), w') ∧
     lastErrors w' = errors ∧
     store w' = store w ∧ dirty w' = dirty w ∧ _subs w' = _subs w ∧
     trace w' = trace w).
Proof.
  repeat split; try reflexivity.
  - intros prop ps Hres Hps. unfold is_reserved, RESERVED_NAMES in Hres.
    apply bool_decide_eq_false in Hres.
    rewrite !not_elem_of_cons in Hres.
    destruct Hres as (?&?&?&?&?&?&?&?&?&?&?&_).
    unfold handler_get. rewrite !decide_False by done.
    rewrite bool_decide_eq_false_2.
    + unfold bind, Reflect_get, bind.
      by rewrite (target_props_run _ _ ps).
    + rewrite !not_elem_of_cons. repeat split; auto using not_elem_of_nil.
  - destruct (doValidate_total m w) as ([valid errors] & c & Hrun & _).
    exists valid, errors, (with_compiledValidator c w),
      (with_lastErrors errors (with_compiledValidator c w)).
    split; [done|]. split; [|done].
    by rewrite (handler_get_isValid_run _ _ _ _ Hrun).
Qed.

End Handler_properties.

(** ** Subscriptions *)

Lemma elem_of_set_add cb c s : c ∈ set_add cb s ↔ c = cb ∨ c ∈ s.
Proof.
  unfold set_add. destruct (decide (cb ∈ s)).
  - naive_solver.
  - rewrite elem_of_app, list_elem_of_singleton. naive_solver.
Qed.

Lemma NoDup_set_add cb s : NoDup s → NoDup (set_add cb s).
Proof.
  unfold set_add. intros Hnd. destruct (decide (cb ∈ s)); [done|].
  apply NoDup_app. split; [done|]. split; [|apply NoDup_singleton].
  intros c Hc ->%list_elem_of_singleton. done.
Qed.

Lemma elem_of_set_delete cb c s : c ∈ set_delete cb s ↔ c ≠ cb ∧ c ∈ s.
Proof. unfold set_delete. by rewrite list_elem_of_filter. Qed.

Lemma published_invocations_in d w cb :
  NoDup (subscribers CHANGE_EVENT w) → cb ∈ subscribers CHANGE_EVENT w →
  invocations cb (trace (published d w)) = S (invocations cb (trace w)).
Proof.
  intros Hnd Hin. destruct (published_spec d w) as (_&_&_&_& Hs & ->).
  rewrite invocations_app, invocations_notification_in by (by rewrite ?Hs).
  lia.
Qed.

Lemma published_invocations_notin d w cb :
  cb ∉ subscribers CHANGE_EVENT w →
  invocations cb (trace (published d w)) = invocations cb (trace w).
Proof.
  intros Hnotin. destruct (published_spec d w) as (_&_&_&_& Hs & ->).
  rewrite invocations_app, invocations_notification_notin by (by rewrite ?Hs).
  lia.
Qed.

Section Subscription.
Context {JSONSchema : Type}.
Implicit Types (m : wrapper JSONSchema) (w : world) (cb : callback).

Lemma subscribe_run m cb w :
  subscribe m cb w =
  Some (Return (Unsubscribe CHANGE_EVENT cb), subscribed m cb w).
Proof.
  unfold subscribe, bind at 1. unfold invoke, modify at 1.
  unfold pubsub_subscribe, bind. rewrite _subsFor_run.
  unfold modify, ret, subscribed. do 2 f_equal.
  unfold subscribers, touched, with_subs, with_trace. simpl.
  destruct (_subs w !! CHANGE_EVENT) eqn:E; simpl; [done|].
  by rewrite insert_insert_eq.
Qed.

Lemma subscribers_with_subs_insert s w :
  subscribers CHANGE_EVENT (with_subs <[CHANGE_EVENT := s]> w) = s.
Proof. unfold subscribers. simpl. by rewrite lookup_insert_eq. Qed.

Lemma call_unsubscribe_run cb w :
  call_unsubscribe (Unsubscribe CHANGE_EVENT cb) w =
  Some (Return (bool_decide (cb ∈ subscribers CHANGE_EVENT w)),
        unsubscribed cb w).
Proof.
  unfold call_unsubscribe, bind. rewrite _subsFor_run.
  unfold modify, ret, unsubscribed. do 2 f_equal.
  unfold subscribers, touched, with_subs. simpl.
  destruct (_subs w !! CHANGE_EVENT) eqn:E; simpl; [done|].
  by rewrite insert_insert_eq.
Qed.

(** C8.  [subscribe(cb)] calls [cb] once, at once, with the proxy and
    before [cb] is registered (the call finds the world as it was), then
    registers [cb] for the change event and returns its unsubscriber.
    While [cb] is registered every notification calls it exactly once
    more; the unsubscriber removes it, and a notification published while
    it is not registered does not call it.  In particular: subscribe, a
    write that changes a value, unsubscribe, another such write, amount
    to two calls of [cb]. *)
Theorem C8_subscribe_contract m w cb :
  ∃ w1 u,
    subscribe m cb w = Some (Return u, w1) ∧
    u = Unsubscribe CHANGE_EVENT cb ∧
    trace w1 = trace w ++ [Invoked cb (proxy m) (observe w)] ∧
    invocations cb (trace w1) = S (invocations cb (trace w)) ∧
    subscribers CHANGE_EVENT w1 = set_add cb (subscribers CHANGE_EVENT w) ∧
    cb ∈ subscribers CHANGE_EVENT w1 ∧
    store w1 = store w ∧ dirty w1 = dirty w ∧
    (∀ w2, NoDup (subscribers CHANGE_EVENT w2) →
       cb ∈ subscribers CHANGE_EVENT w2 →
       ∃ w3, notify m w2 = Some (Return tt, w3) ∧
         invocations cb (trace w3) = S (invocations cb (trace w2))) ∧
    (∀ w2, ∃ w3,
       call_unsubscribe u w2 =
         Some (Return (bool_decide (cb ∈ subscribers CHANGE_EVENT w2)), w3) ∧
       (cb ∉ subscribers CHANGE_EVENT w3) ∧
       trace w3 = trace w2 ∧ store w3 = store w2 ∧ dirty w3 = dirty w2) ∧
    (∀ w2, cb ∉ subscribers CHANGE_EVENT w2 →
       ∃ w3, notify m w2 = Some (Return tt, w3) ∧
         invocations cb (trace w3) = invocations cb (trace w2)) ∧
    (∀ ps k v1 v2,
       NoDup (subscribers CHANGE_EVENT w) →
       store w !! source m = Some (Obj ps) →
       is_reserved k = false → k ∈ keys_of ps →
       strict_eq (get_prop ps k) v1 = false → strict_eq v1 v2 = false →
       ∃ w2 b w3 w4,
         handler_set m k v1 w1 = Some (Return true, w2) ∧
         invocations cb (trace w2) = 2 + invocations cb (trace w) ∧
         call_unsubscribe u w2 = Some (Return b, w3) ∧
         handler_set m k v2 w3 = Some (Return true, w4) ∧
         invocations cb (trace w4) = 2 + invocations cb (trace w)).
Proof.
  exists (subscribed m cb w), (Unsubscribe CHANGE_EVENT cb).
  assert (Htr : trace (subscribed m cb w) =
                trace w ++ [Invoked cb (proxy m) (observe w)]) by done.
  assert (Hinv : invocations cb (trace (subscribed m cb w)) =
                 S (invocations cb (trace w))).
  { rewrite Htr, invocations_app. unfold invocations at 2. simpl.
    rewrite bool_decide_eq_true_2 by done. simpl. lia. }
  assert (Hsubs : subscribers CHANGE_EVENT (subscribed m cb w) =
                  set_add cb (subscribers CHANGE_EVENT w)).
  { unfold subscribed. by rewrite subscribers_with_subs_insert. }
  split; [apply subscribe_run|]. split; [done|]. split; [done|].
  split; [done|]. split; [done|].
  split; [rewrite Hsubs; apply elem_of_set_add; by left|].
  split; [done|]. split; [done|].
  split; [|split; [|split]].
  - intros w2 Hnd Hin. eexists. split; [apply notify_run|].
    by apply published_invocations_in.
  - intros w2. eexists. split; [apply call_unsubscribe_run|].
    split; [|done]. unfold unsubscribed.
    rewrite subscribers_with_subs_insert, elem_of_set_delete. naive_solver.
  - intros w2 Hnotin. eexists. split; [apply notify_run|].
    by apply published_invocations_notin.
  - intros ps k v1 v2 Hnd Hps Hres Hin Hne1 Hne2.
    assert (Hstrict : ∀ ps' : list (string * value), k ∈ keys_of ps' →
              strict m && negb (has_key ps' k) = false).
    { intros ps' H. apply has_key_own in H. rewrite H. apply andb_false_r. }
    assert (Hps1 : store (subscribed m cb w) !! source m = Some (Obj ps))
      by done.
    revert Htr Hinv Hsubs Hps1. generalize (subscribed m cb w).
    intros w1 Htr Hinv Hsubs Hps1.
    pose proof (handler_set_run m w1 ps k v1 Hps1 Hres (Hstrict _ Hin)) as R1.
    rewrite Hne1 in R1.
    set (w2 := published (proxy m)
                 (with_dirty (λ d, d ∪ {[k]}) (assigned m k v1 ps w1))) in *.
    assert (Hs2 : subscribers CHANGE_EVENT w2 = subscribers CHANGE_EVENT w1).
    { subst w2. by destruct (published_spec (proxy m)
        (with_dirty (λ d, d ∪ {[k]}) (assigned m k v1 ps w1)))
        as (_&_&_&_& -> & _). }
    assert (Hi2 : invocations cb (trace w2) = 2 + invocations cb (trace w)).
    { subst w2. rewrite published_invocations_in.
      - simpl. rewrite Hinv. lia.
      - change (NoDup (subscribers CHANGE_EVENT w1)). rewrite Hsubs.
        by apply NoDup_set_add.
      - change (cb ∈ subscribers CHANGE_EVENT w1). rewrite Hsubs.
        apply elem_of_set_add. by left. }
    set (w3 := unsubscribed cb w2).
    assert (Hps3 : store w3 !! source m = Some (Obj (set_prop ps k v1))).
    { change (store w2 !! source m = Some (Obj (set_prop ps k v1))).
      subst w2.
      destruct (published_spec (proxy m)
        (with_dirty (λ d, d ∪ {[k]}) (assigned m k v1 ps w1))) as (-> & _).
      apply lookup_insert_eq. }
    assert (Hin3 : k ∈ keys_of (set_prop ps k v1)).
    { apply keys_of_set_prop. by left. }
    pose proof (handler_set_run m w3 _ k v2 Hps3 Hres (Hstrict _ Hin3)) as R3.
    rewrite get_set_prop_eq, Hne2 in R3.
    eexists w2, _, w3, _.
    split; [exact R1|]. split; [exact Hi2|].
    split; [apply call_unsubscribe_run|]. split; [exact R3|].
    rewrite published_invocations_notin; [exact Hi2|].
    change (cb ∉ subscribers CHANGE_EVENT w3). subst w3. unfold unsubscribed.
    rewrite subscribers_with_subs_insert, elem_of_set_delete. naive_solver.
Qed.

End Subscription.

(** ** Bulk update *)

Section Hydrate.
Context {JSONSchema : Type}.
Implicit Types (m : wrapper JSONSchema) (w : world) (k : string).

Lemma hydrate_step m data key rest w tps dps :
  store w !! source m = Some (Obj tps) →
  store w !! data = Some (Obj dps) →
  strict m && negb (has_key tps key) = false →
  hydrate_loop m data (key :: rest) w =
  hydrate_loop m data rest
    ((if strict_eq (get_prop tps key) (get_prop dps key) then id
      else with_dirty (λ d, d ∪ {[key]}))
       (assigned m key (get_prop dps key) tps w)).
Proof.
  intros Ht Hd Hs. simpl. unfold bind at 1.
  rewrite (target_props_run _ _ tps), Hs by done.
  unfold bind at 1. rewrite (object_props_run _ _ dps) by done.
  unfold bind at 1. unfold set_target, modify at 1.
  unfold bind at 1.
  by destruct (strict_eq (get_prop tps key) (get_prop dps key)).
Qed.






End Hydrate.

(** ** Deep copies *)





Lemma allocated_true (h h' : heap) l :
  allocated h h' l = true ↔ l ∈ dom h' ∧ l ∉ dom h.
Proof. unfold allocated. by rewrite bool_decide_eq_true, elem_of_difference. Qed.




Section DeepClone.
Variable f : nat.
Hypothesis IH : ∀ (h : heap) v t,
  reify anywhere f h v = Some t →
  ∃ v' h', deepClone f h v = Some (v', h') ∧ h ⊆ h' ∧
           reify (allocated h h') f h' v' = Some t.


End DeepClone.



(** ** Restoring the initial snapshot *)



Section Restore.
Context {JSONSchema : Type}.
Implicit Types (m : wrapper JSONSchema) (w : world) (k : string).






End Restore.

(** * Running the model *)

Ltac by_compute := vm_compute; reflexivity.
Ltac decide_by_compute := apply (bool_decide_eq_true_1 _); by_compute.

Lemma built_eq : Demo.built = Some (Return Demo.jm, Demo.jw).
Proof. by_compute. Qed.

Lemma jw_model :
  store Demo.jw !! source Demo.jm = Some (Obj Demo.john_props).
Proof. by_compute. Qed.

(** ** Scenarios of the test suite *)

(** A source object using a reserved name is refused. *)
Example test_reserved_source :
  fst <$> modelize 3 1%positive Demo.plain
            (<[1%positive := Obj [("__dirty", VString "value")]]> ∅) =
  Some (Throw (Error ("Property " +:+ quoted "__dirty" +:+
                      " is reserved and cannot be used in modelized objects"))).
Proof. by_compute. Qed.

(** Writing the value a property already has does not mark it dirty and
    notifies nobody. *)
Example test_unchanged_value :
  (λ r, (r.1, dirty r.2, trace r.2)) <$>
    handler_set Demo.jm "name" (VString "John") Demo.jw =
  Some (Return true, ∅, []).
Proof. by_compute. Qed.

(** [NaN] is never strictly equal to itself: writing it twice notifies
    twice. *)
Example test_NaN_written_twice :
  (λ r, publications (trace r.2)) <$>
    (handler_set Demo.jm "age" VNaN ;;; handler_set Demo.jm "age" VNaN)
      Demo.jw =
  Some 2.
Proof. by_compute. Qed.

(** In strict mode a new property is refused; without it the property is
    added and reads back. *)
Example test_strict_mode :
  fst <$> handler_set Demo.jm "newProp" (VString "value") Demo.jw =
    Some (Throw (strict_error "newProp")) ∧
  fst <$> (handler_set Demo.lm "newProp" (VString "value") ;;;
           handler_get Demo.compile Demo.lm "newProp") Demo.jw =
    Some (Return (GotValue (VString "value"))).
Proof. split; by_compute. Qed.

(** The snapshot is a deep copy: a mutation inside the live model does not
    show in it. *)
Example test_initial_is_deep_clone :
  reify anywhere 3 (store Demo.jw_mutated) (VRef (source Demo.jm)) =
    Some (TObject [("name", TString "John"); ("age", TNumber 30);
                   ("nested", TObject [("value", TNumber 999)])]) ∧
  reify anywhere 3 (store Demo.jw_mutated) (VRef (initial Demo.jm)) =
    Some (TObject [("name", TString "John"); ("age", TNumber 30);
                   ("nested", TObject [("value", TNumber 1)])]).
Proof. split; by_compute. Qed.

(** [__resetToInitial] brings the nested value back. *)
Example test_resetToInitial_nested :
  (λ r, reify anywhere 3 (store r.2) (VRef (source Demo.jm))) <$>
    __resetToInitial Demo.jm 3 Demo.jw_mutated =
  Some (Some (TObject [("name", TString "John"); ("age", TNumber 30);
                       ("nested", TObject [("value", TNumber 1)])])).
Proof. by_compute. Qed.

(** A subscriber is called on subscription and once for a whole
    [__hydrate]. *)
Example test_hydrate_single_notification :
  (λ r, invocations 7 (trace r.2)) <$>
    (subscribe Demo.jm 7 ;;; __hydrate Demo.jm 5%positive None)
      (Demo.with_data [("name", VString "Jane"); ("age", VNumber 25)]) =
  Some 2.
Proof. by_compute. Qed.

(** A cyclic source exhausts any stack: construction yields nothing. *)
Example test_cyclic_source :
  modelize 50 1%positive Demo.plain
    (<[1%positive := Obj [("self", VRef 1%positive)]]> ∅) = None.
Proof. by_compute. Qed.

(** ** The claims on examples *)

(** C1 on [john]: [model.name = "Jane"]. *)
Lemma C1_witness :
  ∃ w1, handler_set Demo.jm "name" (VString "Jane") Demo.jw =
          Some (Return true, w1) ∧
        dirty w1 = dirty Demo.jw ∪ {["name"]} ∧
        publications (notification (proxy Demo.jm) w1) = 1.
Proof.
  destruct (C1_write_tracks_changes Demo.jm Demo.jw _ "name" (VString "Jane")
              jw_model) as (w1 & w2 & H1 & _ & _ & Hd & _).
  - by_compute.
  - decide_by_compute.
  - exists w1. split; [exact H1|].
    destruct Hd as (? & ? & ?); [by_compute|]. by split.
Defined.

(** C2 on a model rejected by both stages. *)
Lemma C2_witness :
  ∃ w1, handler_get Demo.compile Demo.vm "__isValid" Demo.vw =
          Some (Return (GotBool false), w1) ∧
        lastErrors w1 =
          [ {| path := "/age"; message := "must be >= minimum" |};
            {| path := "/"; message := "Reserved name" |} ].
Proof.
  destruct (C2_validation_runs_both_stages Demo.compile Demo.vm Demo.vw
              (Demo.Minimum "age" 0) Demo.status_check
              [ {| Ajv.instancePath := "/age";
                   Ajv.message := Some "must be >= minimum" |} ]
              "Reserved name")
    as (_ & _ & _ & (w1 & H1 & H2) & _).
  - reflexivity.
  - reflexivity.
  - left. reflexivity.
  - by_compute.
  - discriminate.
  - by_compute.
  - exists w1. split; [exact H1|exact H2].
Defined.

(** C3, as the code has it, on [john] with nothing configured. *)
Lemma C3_witness :
  __validate Demo.compile Demo.jm Demo.jw =
    Some (Return true, with_lastErrors [] Demo.jw) ∧
  handler_get Demo.compile Demo.jm "__isValid" Demo.jw =
    Some (Return (GotBool true), with_lastErrors [] Demo.jw).
Proof.
  apply (C3_unconfigured_is_trivially_valid Demo.compile Demo.jm Demo.jw);
    reflexivity.
Defined.

(** C3, as stated, fails: on the wrapper [modelize] builds with neither a
    schema nor a custom validator, [__validate] does not throw. *)
Lemma C3_counterexample :
  modelize 3 1%positive Demo.plain Demo.john = Some (Return Demo.jm, Demo.jw) ∧
  schema Demo.jm = None ∧ customValidator Demo.jm = None ∧
  ¬ ∃ e w', __validate Demo.compile Demo.jm Demo.jw = Some (Throw e, w').
Proof.
  split; [exact built_eq|].
  split; [done|]. split; [done|]. intros (e & w' & H).
  rewrite (__validate_run Demo.compile Demo.jm Demo.jw (true, []) Demo.jw) in H.
  - discriminate H.
  - by apply unconfigured_pass.
Qed.





(** C7 on [john], with and without strict mode. *)
Lemma C7_witness :
  handler_deleteProperty Demo.jm "name" Demo.jw =
    Some (Throw (Error ("Cannot delete property " +:+ quoted "name" +:+
                        " (strict mode enabled)")), Demo.jw) ∧
  ∃ w', handler_deleteProperty Demo.lm "name" Demo.jw = Some (Return true, w') ∧
        dirty w' = dirty Demo.jw ∧
        publications (notification (proxy Demo.lm) w') = 1.
Proof.
  split.
  - apply (C7_delete Demo.jm Demo.jw "name"). reflexivity.
  - destruct (C7_delete Demo.lm Demo.jw "name") as [_ H].
    destruct (H _ eq_refl jw_model) as (w' & Hrun & _ & _ & Hd & _ & Hp).
    by exists w'.
Defined.

(** C8 on [john]: subscribe, write, unsubscribe, write. *)
Lemma C8_witness :
  ∃ w1 w2 b w3 w4,
    subscribe Demo.jm 7 Demo.jw =
      Some (Return (Unsubscribe CHANGE_EVENT 7), w1) ∧
    invocations 7 (trace w1) = 1 ∧
    handler_set Demo.jm "name" (VString "Jane") w1 = Some (Return true, w2) ∧
    invocations 7 (trace w2) = 2 ∧
    call_unsubscribe (Unsubscribe CHANGE_EVENT 7) w2 = Some (Return b, w3) ∧
    handler_set Demo.jm "name" (VString "Jack") w3 = Some (Return true, w4) ∧
    invocations 7 (trace w4) = 2.
Proof.
  destruct (C8_subscribe_contract Demo.jm Demo.jw 7)
    as (w1 & u & Hsub & -> & _ & Hi1 & _ & _ & _ & _ & _ & _ & _ & Hscen).
  destruct (Hscen Demo.john_props "name" (VString "Jane") (VString "Jack"))
    as (w2 & b & w3 & w4 & H2 & Hi2 & H3 & H4 & Hi4).
  - apply NoDup_nil_2.
  - exact jw_model.
  - by_compute.
  - decide_by_compute.
  - by_compute.
  - by_compute.
  - exists w1, w2, b, w3, w4. by repeat split.
Defined.

(** C9 on [john]: a reserved key, and an unknown key in strict mode. *)
Lemma C9_witness :
  handler_set Demo.jm "__dirty" VNull Demo.jw =
    Some (Throw (Error ("Cannot set reserved property " +:+ quoted "__dirty")),
          Demo.jw) ∧
  handler_set Demo.jm "zip" VNull Demo.jw =
    Some (Throw (strict_error "zip"), Demo.jw).
Proof.
  split.
  - apply (C9_failed_write_is_atomic Demo.jm Demo.jw "__dirty" VNull).
    by_compute.
  - destruct (C9_failed_write_is_atomic Demo.jm Demo.jw "zip" VNull)
      as (_ & H & _).
    apply (H _ ltac:(by_compute) eq_refl jw_model). decide_by_compute.
Defined.

(** C10 on [john]: reading [name]. *)
Lemma C10_witness :
  handler_get Demo.compile Demo.jm "name" Demo.jw =
    Some (Return (GotValue (VString "John")), Demo.jw).
Proof.
  destruct (C10_reads_do_not_mutate Demo.compile Demo.jm Demo.jw)
    as (_ & _ & _ & _ & _ & H & _).
  apply (H "name" _ ltac:(by_compute) jw_model).
Defined.

(** * Further properties *)

(** ** deepClone *)

(** Whatever it is given, [deepClone] only adds objects to the store. *)
Lemma traverse_extends {A B} (g : heap → A → option (B * heap)) :
  (∀ h x y h', g h x = Some (y, h') → h ⊆ h') →
  ∀ xs h ys h', traverse g h xs = Some (ys, h') → h ⊆ h'.
Proof.
  intros Hg. induction xs as [|x xs IH]; intros h ys h'; simpl.
  - by intros [= _ <-].
  - destruct (g h x) as [[y h1]|] eqn:E; [|done].
    destruct (traverse g h1 xs) as [[ys' h2]|] eqn:E'; [|done].
    intros [= _ <-]. etrans; [by eapply Hg|by eapply IH].
Qed.

Lemma deepClone_extends fuel : ∀ (h : heap) v v' h',
  deepClone fuel h v = Some (v', h') → h ⊆ h'.
Proof.
  induction fuel as [|f IH]; intros h v v' h'; destruct v; simpl;
    try (by intros [= _ <-]); try done.
  destruct (h !! l) as [[ps|es]|]; [| |done].
  - destruct (traverse (deepClone f) h ps.*2) as [[vs h1]|] eqn:E; [|done].
    unfold alloc. intros [= _ <-].
    etrans; [by eapply (traverse_extends (deepClone f))|].
    apply insert_subseteq, not_elem_of_dom, is_fresh.
  - destruct (traverse (deepClone f) h es) as [[vs h1]|] eqn:E; [|done].
    unfold alloc. intros [= _ <-].
    etrans; [by eapply (traverse_extends (deepClone f))|].
    apply insert_subseteq, not_elem_of_dom, is_fresh.
Qed.

Lemma traverse_stuck {A B} (g : heap → A → option (B * heap)) x
    (Q : heap → Prop) :
  (∀ h, Q h → g h x = None) →
  (∀ h y z h', Q h → g h y = Some (z, h') → Q h') →
  ∀ xs h, x ∈ xs → Q h → traverse g h xs = None.
Proof.
  intros Hx Hq. induction xs as [|y xs IH]; intros h Hin HQ.
  - by apply elem_of_nil in Hin.
  - simpl. apply elem_of_cons in Hin as [<-|Hin].
    + by rewrite Hx.
    + destruct (g h y) as [[z h1]|] eqn:E; [|done].
      by rewrite (IH h1 Hin (Hq _ _ _ _ HQ E)).
Qed.

(** X1. A container that has itself among its members is never copied:
    whatever the stack, [deepClone] gives no result (the source has no guard
    against cycles). *)
Theorem deepClone_self_reference (h : heap) l o fuel :
  h !! l = Some o → mentions l o → deepClone fuel h (VRef l) = None.
Proof.
  intros Hl Hm. revert h Hl.
  induction fuel as [|f IH]; intros h Hl; [done|].
  cbn [deepClone]. rewrite Hl.
  assert (Hstuck : ∀ xs, VRef l ∈ xs → traverse (deepClone f) h xs = None).
  { intros xs Hin.
    apply (traverse_stuck (deepClone f) (VRef l)
             (λ h1, h1 !! l = Some o)); [exact IH| |done|done].
    intros h1 y z h2 Hh1 E. eapply lookup_weaken; [exact Hh1|].
    by eapply deepClone_extends. }
  destruct o as [ps|es]; simpl in Hm; by rewrite Hstuck.
Qed.

(** [h := {1: { self: <1> }}] *)
Lemma deepClone_self_reference_witness :
  deepClone 1000 (<[1%positive := Obj [("self", VRef 1%positive)]]> ∅)
    (VRef 1%positive) = None.
Proof.
  apply (deepClone_self_reference _ 1%positive
           (Obj [("self", VRef 1%positive)])).
  - by_compute.
  - simpl. apply list_elem_of_singleton. reflexivity.
Defined.



(** ** ajvErrorsToValidationErrors *)

Lemma or_default_nonempty s d : d ≠ EmptyString → or_default s d ≠ EmptyString.
Proof. intros Hd. unfold or_default. by destruct (decide (s = EmptyString)). Qed.

(** X3. The conversion of the engine's errors maps the absence of errors to
    the empty list; otherwise it drops no error and keeps their order. Each
    error is converted on its own, field by field: a path that is not empty
    is kept and an empty one becomes ["/"]; a message that is present and
    not empty is kept, and a missing or empty one becomes
    ["Unknown validation error"]. So no converted error has an empty path
    or an empty message. *)
Theorem ajvErrors_converted :
  ajvErrorsToValidationErrors None = [] ∧
  ∀ errs,
    length (ajvErrorsToValidationErrors (Some errs)) = length errs ∧
    (∀ i e, errs !! i = Some e →
       ∃ r, ajvErrorsToValidationErrors (Some errs) !! i = Some r ∧
         (Ajv.instancePath e ≠ EmptyString → path r = Ajv.instancePath e) ∧
         (Ajv.instancePath e = EmptyString → path r = "/") ∧
         (∀ msg, Ajv.message e = Some msg → msg ≠ EmptyString →
                 message r = msg) ∧
         (Ajv.message e = None ∨ Ajv.message e = Some EmptyString →
          message r = "Unknown validation error")) ∧
    (∀ e, e ∈ ajvErrorsToValidationErrors (Some errs) →
          path e ≠ EmptyString ∧ message e ≠ EmptyString) ∧
    (∀ i p msg, p ≠ EmptyString → msg ≠ EmptyString →
       errs !! i = Some {| Ajv.instancePath := p; Ajv.message := Some msg |} →
       ajvErrorsToValidationErrors (Some errs) !! i =
         Some {| path := p; message := msg |}).
Proof.
  split; [done|]. intros errs. simpl. split; [apply length_fmap|].
  split; [|split].
  - intros i e Hi. eexists. rewrite list_lookup_fmap, Hi. simpl.
    split; [reflexivity|]. cbn [path message]. unfold or_default.
    split; [intros H; by rewrite decide_False|].
    split; [intros H; by rewrite decide_True|]. split.
    + intros msg -> Hmsg. cbn [default]. by rewrite decide_False.
    + intros [-> | ->]; cbn [default]; by rewrite decide_True.
  - intros e (e0 & -> & _)%list_elem_of_fmap. simpl.
    split; by apply or_default_nonempty.
  - intros i p msg Hp Hmsg Hi. rewrite list_lookup_fmap, Hi. simpl.
    unfold or_default. by rewrite !decide_False.
Qed.

(** ** Construction *)

Lemma find_first {A} (f : A → bool) pre x post :
  Forall (λ y, f y = false) pre → f x = true →
  List.find f (pre ++ x :: post) = Some x.
Proof.
  intros Hpre Hx. induction Hpre as [|y pre Hy _ IH]; simpl.
  - by rewrite Hx.
  - by rewrite Hy.
Qed.

Lemma find_none {A} (f : A → bool) xs :
  Forall (λ y, f y = false) xs → List.find f xs = None.
Proof. induction 1 as [|y xs Hy _ IH]; simpl; [done|by rewrite Hy]. Qed.

Section Construction.
Context {JSONSchema : Type}.
Implicit Types (options : ModelizeOptions JSONSchema).

(** X4. A source object with a reserved name among its keys is refused: the
    error names the first such key in enumeration order, whatever the
    options, and before anything is copied (the store is as given). *)
Theorem modelize_refuses_reserved fuel src options (h : heap) ps pre key post :
  h !! src = Some (Obj ps) →
  keys_of ps = pre ++ key :: post →
  Forall (λ k, is_reserved k = false) pre →
  is_reserved key = true →
  modelize fuel src options h =
  Some (Throw (Error ("Property " +:+ quoted key +:+
                      " is reserved and cannot be used in modelized objects")),
        fresh_world h).
Proof.
  intros Hsrc Hkeys Hpre Hkey. unfold modelize.
  by rewrite Hsrc, Hkeys, (find_first _ _ _ _ Hpre Hkey).
Qed.


End Construction.

Lemma modelize_refuses_reserved_witness :
  fst <$> modelize 3 1%positive Demo.plain
            (<[1%positive := Obj [("name", VString "x");
                                  ("subscribe", VNull);
                                  ("__dirty", VNull)]]> ∅) =
  Some (Throw (Error ("Property " +:+ quoted "subscribe" +:+
                      " is reserved and cannot be used in modelized objects"))).
Proof.
  rewrite (modelize_refuses_reserved 3 1%positive Demo.plain _
             [("name", VString "x"); ("subscribe", VNull); ("__dirty", VNull)]
             ["name"] "subscribe" ["__dirty"]).
  - reflexivity.
  - by_compute.
  - reflexivity.
  - repeat constructor.
  - by_compute.
Defined.


(** ** Footprints: which primitives an operation is built from *)

Section Preserves.
Context (P : relation world) `{!PreOrder P}.

Lemma preserves_ret {A} (a : A) : preserves P (ret a).
Proof. by intros w r w' [= <- <-]. Qed.

Lemma preserves_throw {A} e : preserves P (@throw A e).
Proof. by intros w r w' [= <- <-]. Qed.

Lemma preserves_gets {A} (f : world → A) : preserves P (gets f).
Proof. by intros w r w' [= <- <-]. Qed.

Lemma preserves_lift_option {A} (f : world → option A) :
  preserves P (lift_option f).
Proof.
  intros w r w'. unfold lift_option. destruct (f w); [|done].
  by intros [= <- <-].
Qed.

Lemma preserves_modify f : (∀ w, P w (f w)) → preserves P (modify f).
Proof. intros Hf w r w' [= <- <-]. apply Hf. Qed.

Lemma preserves_bind {A B} (op : M A) (k : A → M B) :
  preserves P op → (∀ a, preserves P (k a)) → preserves P (bind op k).
Proof.
  intros Hop Hk w r w'. unfold bind.
  destruct (op w) as [[[a|e] w1]|] eqn:E; [| |done].
  - intros Hka. etrans; [by eapply Hop|by eapply Hk].
  - intros [= <- <-]. by eapply Hop.
Qed.

Lemma preserves_when b op : preserves P op → preserves P (when b op).
Proof. intros Hop. destruct b; [done|apply preserves_ret]. Qed.

End Preserves.

(** Splits an operation into the primitives it is built from. *)
Ltac footprint :=
  repeat first
    [ exact _
    | apply preserves_ret | apply preserves_throw | apply preserves_gets
    | apply preserves_lift_option
    | apply preserves_when
    | apply preserves_bind; [| |intros ?]
    | match goal with
      | |- preserves _ (if ?b then _ else _) => destruct b
      | |- preserves _ (match ?x with _ => _ end) => destruct x
      end
    | apply preserves_modify; try done
    | progress cbv beta zeta ].

Section Footprint.
Context {JSONSchema : Type} (ajv_compile : JSONSchema → Ajv.ValidateFunction).
Context (P : relation world) `{!PreOrder P} (m : wrapper JSONSchema).

Lemma preserves_notify :
  tolerates_notify P m → preserves P (notify m).
Proof. intros H w r w'. rewrite notify_run. intros [= <- <-]. apply H. Qed.

Lemma preserves_clone fuel v :
  tolerates_alloc P → preserves P (clone fuel v).
Proof.
  intros H w r w'. unfold clone.
  destruct (deepClone fuel (store w) v) as [[v' h']|] eqn:E; [|done].
  intros [= <- <-]. apply H. by eapply deepClone_extends.
Qed.

Lemma preserves_getCompiledValidator :
  tolerates_compile ajv_compile P m →
  preserves P (getCompiledValidator ajv_compile m).
Proof.
  intros H w r w'. unfold getCompiledValidator, bind, gets, modify, ret.
  destruct (schema m) as [s|] eqn:Hs, (compiledValidator w) eqn:Hc; simpl;
    intros [= <- <-]; try done.
  by apply H.
Qed.

Lemma preserves_doValidate :
  tolerates_compile ajv_compile P m → preserves P (doValidate ajv_compile m).
Proof.
  intros H. unfold doValidate. apply preserves_bind; [done| |].
  - by apply preserves_getCompiledValidator.
  - intros validator. footprint.
Qed.

(** The same, stopping at [notify], [clone] and [doValidate]. *)
Ltac footprint_of_handler :=
  repeat first
    [ exact _
    | assumption
    | by apply preserves_notify
    | by apply preserves_clone
    | by apply preserves_doValidate
    | apply preserves_ret | apply preserves_throw | apply preserves_gets
    | apply preserves_lift_option
    | apply preserves_when
    | apply preserves_bind; [| |intros ?]
    | match goal with
      | |- preserves _ (if ?b then _ else _) => destruct b
      | |- preserves _ (match ?x with _ => _ end) => destruct x
      end
    | apply preserves_modify; try done
    | progress cbv beta zeta ].

Lemma preserves___validate :
  tolerates_compile ajv_compile P m → tolerates_errors P →
  preserves P (__validate ajv_compile m).
Proof.
  intros Hc He. unfold __validate. footprint_of_handler.
Qed.

Lemma preserves_handler_get prop :
  tolerates_compile ajv_compile P m → tolerates_errors P →
  preserves P (handler_get ajv_compile m prop).
Proof.
  intros Hc He. unfold handler_get, Reflect_get, target_props, object_props.
  repeat case_decide; try case_bool_decide; footprint_of_handler.
Qed.

Lemma preserves_Reflect_set prop v :
  tolerates_assign P m → preserves P (Reflect_set m prop v).
Proof.
  intros H. unfold Reflect_set, target_props, object_props, set_target.
  footprint.
Qed.

Lemma preserves_handler_set key v :
  tolerates_assign P m → tolerates_dirty_add P → tolerates_notify P m →
  preserves P (handler_set m key v).
Proof.
  intros Ha Hd Hn. unfold handler_set, target_props, object_props.
  footprint_of_handler.
Qed.

Lemma preserves_handler_deleteProperty prop :
  tolerates_assign P m → tolerates_notify P m →
  preserves P (handler_deleteProperty m prop).
Proof.
  intros Ha Hn.
  unfold handler_deleteProperty, Reflect_deleteProperty, target_props,
    object_props, set_target.
  footprint_of_handler.
Qed.

Lemma preserves___reset :
  tolerates_dirty_clear P → tolerates_notify P m → preserves P (__reset m).
Proof. intros Hd Hn. unfold __reset. footprint_of_handler. Qed.

Lemma preserves_restore_loop fuel keys :
  tolerates_alloc P → tolerates_assign P m →
  preserves P (restore_loop m fuel keys).
Proof.
  intros Hal Ha. induction keys as [|key rest IH]; simpl.
  - by apply preserves_ret.
  - unfold target_props, object_props, set_target. footprint_of_handler.
Qed.

Lemma preserves___resetToInitial fuel :
  tolerates_alloc P → tolerates_assign P m → tolerates_dirty_clear P →
  tolerates_notify P m →
  preserves P (__resetToInitial m fuel).
Proof.
  intros Hal Ha Hd Hn. unfold __resetToInitial, object_props.
  apply preserves_bind; [done|footprint|]. intros ips.
  apply preserves_bind; [done|by apply preserves_restore_loop|]. intros _.
  footprint_of_handler.
Qed.

Lemma preserves_hydrate_loop data keys :
  tolerates_assign P m → tolerates_dirty_add P →
  preserves P (hydrate_loop m data keys).
Proof.
  intros Ha Hd. induction keys as [|key rest IH]; simpl.
  - by apply preserves_ret.
  - unfold target_props, object_props, set_target.
    apply preserves_bind; [done|footprint|]. intros tps.
    destruct (strict m && negb (has_key tps key)); [footprint|].
    apply preserves_bind; [done|footprint|]. intros dps.
    apply preserves_bind; [done|footprint|]. intros _.
    apply preserves_bind; [done|footprint|]. intros _. exact IH.
Qed.

Lemma preserves___hydrate data opts :
  tolerates_assign P m → tolerates_dirty_add P →
  (default false (opts ≫= resetDirty) = true → tolerates_dirty_clear P) →
  tolerates_notify P m →
  preserves P (__hydrate m data opts).
Proof.
  intros Ha Hd Hc Hn. unfold __hydrate, object_props.
  apply preserves_bind; [done|footprint|]. intros dps.
  apply preserves_bind; [done|by apply preserves_hydrate_loop|]. intros _.
  apply preserves_bind; [done| |intros _; by apply preserves_notify].
  destruct (default false (opts ≫= resetDirty)); simpl.
  - apply preserves_modify. by apply Hc.
  - by apply preserves_ret.
Qed.

Lemma preserves_subscribe cb :
  tolerates_subscribe P m → preserves P (subscribe m cb).
Proof. intros H w r w'. rewrite subscribe_run. intros [= <- <-]. apply H. Qed.

Lemma preserves_call_unsubscribe cb :
  tolerates_unsubscribe P →
  preserves P (call_unsubscribe (Unsubscribe CHANGE_EVENT cb)).
Proof.
  intros H w r w'. rewrite call_unsubscribe_run. intros [= <- <-]. apply H.
Qed.

(** Every operation is built from these primitives. *)
Lemma preserves_perform op :
  tolerates_assign P m → tolerates_alloc P → tolerates_dirty_add P →
  tolerates_dirty_clear P → tolerates_errors P →
  tolerates_compile ajv_compile P m → tolerates_notify P m →
  tolerates_subscribe P m → tolerates_unsubscribe P →
  preserves P (perform ajv_compile m op).
Proof.
  intros. destruct op; simpl;
    try (apply preserves_bind; [done| |intros ?; by apply preserves_ret]).
  - by apply preserves_handler_get.
  - by apply preserves_handler_set.
  - by apply preserves_handler_deleteProperty.
  - by apply preserves___validate.
  - by apply preserves___reset.
  - by apply preserves___resetToInitial.
  - by apply preserves___hydrate.
  - by apply preserves_subscribe.
  - by apply preserves_call_unsubscribe.
Qed.

End Footprint.

(** ** What the operations leave alone *)

(** [perform] drops the result of the operation it runs. *)
Ltac drop_result P tac :=
  apply (preserves_bind P); [tac|intros ?; by apply (preserves_ret P)].

Lemma subscribers_published name d w :
  subscribers name (published d w) = subscribers name w.
Proof.
  unfold published, subscribers, touched. simpl.
  destruct (_subs w !! CHANGE_EVENT) eqn:E; simpl; [done|].
  destruct (decide (name = CHANGE_EVENT)) as [->|Hne].
  - by rewrite lookup_insert_eq, E.
  - by rewrite lookup_insert_ne.
Qed.



Section Frames.
Context {JSONSchema : Type} (ajv_compile : JSONSchema → Ajv.ValidateFunction).
Implicit Types (m : wrapper JSONSchema) (w : world) (op : operation).

#[global] Instance kept_preorder m : PreOrder (kept m).
Proof.
  split.
  - by split.
  - intros w1 w2 w3 [H1 H1'] [H2 H2']. split; auto.
Qed.

Lemma kept_published m d w : kept m w (published d w).
Proof.
  unfold kept, model_keys.
  by destruct (published_spec d w) as (-> & _).
Qed.

Lemma perform_kept m op : preserves (kept m) (perform ajv_compile m op).
Proof.
  apply (preserves_perform ajv_compile (kept m) m op).
  - intros w0 ps. split; simpl.
    + intros l o Hl Ho. by rewrite lookup_insert_ne.
    + intros _. unfold model_keys. simpl. by rewrite lookup_insert_eq.
  - intros w0 h' Hsub. split; simpl.
    + intros l o _ Ho. by eapply lookup_weaken.
    + unfold model_keys. simpl.
      destruct (store w0 !! source m) as [[ps|]|] eqn:E;
        try by intros [? ?].
      by rewrite (lookup_weaken _ _ _ _ E Hsub).
  - by intros w0 k.
  - by intros w0.
  - by intros w0 es.
  - by intros w0 s _ _.
  - intros w0. apply kept_published.
  - by intros w0 cb.
  - by intros w0 cb.
Qed.

(** X6. Whatever the operation and whether it returns or throws, it writes
    to no object of the store but the model: nested containers of the model,
    the snapshot and the data handed to [__hydrate] are as before. The model
    itself stays a plain object. *)
Theorem operations_write_to_the_model_only m op w r w' :
  perform ajv_compile m op w = Some (r, w') →
  (∀ l o, l ≠ source m → store w !! l = Some o → store w' !! l = Some o) ∧
  (is_Some (model_keys m w) → is_Some (model_keys m w')).
Proof. apply perform_kept. Qed.

#[global] Instance same_store_preorder : PreOrder same_store.
Proof. split; [done|]. intros w1 w2 w3 H1 H2. unfold same_store in *. congruence. Qed.

(** X7. Reading, validating, cleaning the dirty state, subscribing and
    unsubscribing never write to the store: the model and every other object
    are as before. *)
Theorem only_writes_touch_the_store m op w r w' :
  is_write op = false →
  perform ajv_compile m op w = Some (r, w') →
  store w' = store w.
Proof.
  intros Hop.
  assert (Hn : tolerates_notify same_store m).
  { intros w0. by destruct (published_spec (proxy m) w0) as (? & _). }
  destruct op; try done; simpl.
  - drop_result same_store ltac:(by apply (preserves_handler_get ajv_compile same_store m)).
  - drop_result same_store ltac:(by apply (preserves___validate ajv_compile same_store m)).
  - by apply (preserves___reset same_store m).
  - drop_result same_store ltac:(by apply (preserves_subscribe same_store m)).
  - drop_result same_store ltac:(by apply (preserves_call_unsubscribe same_store)).
Qed.

#[global] Instance same_validation_preorder : PreOrder same_validation.
Proof.
  split; [done|]. intros w1 w2 w3 [??] [??]. split; congruence.
Qed.

(** A read other than [__isValid] leaves the world as it is. *)
Lemma handler_get_pure m prop :
  prop ≠ "__isValid" →
  preserves (λ w w', w' = w) (handler_get ajv_compile m prop).
Proof.
  intros Hne.
  assert (PreOrder (λ w w' : world, w' = w)).
  { split; [done|]. intros w1 w2 w3. congruence. }
  unfold handler_get, Reflect_get, target_props, object_props.
  repeat case_decide; try done; try case_bool_decide; footprint.
Qed.

(** X8. Validation is lazy: no operation but reading [__isValid] and calling
    [__validate] changes the last errors or compiles the schema; after a
    write [__errors] still holds the result of the last validation pass. *)
Theorem only_validation_changes_errors m op w r w' :
  is_validation op = false →
  perform ajv_compile m op w = Some (r, w') →
  lastErrors w' = lastErrors w ∧ compiledValidator w' = compiledValidator w.
Proof.
  intros Hop.
  assert (Hn : tolerates_notify same_validation m).
  { intros w0. by destruct (published_spec (proxy m) w0) as (_ & _ & ? & ? & _). }
  destruct op; try done; simpl.
  - apply bool_decide_eq_false in Hop. unfold bind.
    destruct (handler_get ajv_compile m prop w) as [[[g|e] w1]|] eqn:E;
      [| |done]; intros [= _ <-];
      by rewrite (handler_get_pure m prop Hop _ _ _ E).
  - drop_result same_validation ltac:(by apply (preserves_handler_set same_validation m)).
  - drop_result same_validation ltac:(by apply (preserves_handler_deleteProperty same_validation m)).
  - by apply (preserves___reset same_validation m).
  - by apply (preserves___resetToInitial same_validation m).
  - by apply (preserves___hydrate same_validation m).
  - drop_result same_validation ltac:(by apply (preserves_subscribe same_validation m)).
  - drop_result same_validation ltac:(by apply (preserves_call_unsubscribe same_validation)).
Qed.

#[global] Instance same_but_validation_preorder : PreOrder same_but_validation.
Proof.
  split; [done|]. intros w1 w2 w3 (?&?&?&?) (?&?&?&?).
  repeat split; congruence.
Qed.

(** X9. A read of any property and a call of [__validate], whether it
    returns or throws, publish nothing and leave the store, the dirty set
    and the subscribers as they were. *)
Theorem reads_and_validation_are_silent m w :
  (∀ prop r w', handler_get ajv_compile m prop w = Some (r, w') →
     store w' = store w ∧ dirty w' = dirty w ∧ _subs w' = _subs w ∧
     trace w' = trace w) ∧
  (∀ r w', __validate ajv_compile m w = Some (r, w') →
     store w' = store w ∧ dirty w' = dirty w ∧ _subs w' = _subs w ∧
     trace w' = trace w).
Proof.
  split.
  - intros prop r w'.
    by apply (preserves_handler_get ajv_compile same_but_validation m).
  - intros r w'.
    by apply (preserves___validate ajv_compile same_but_validation m).
Qed.

End Frames.

(** ** The dirty set, the subscribers, the trace *)

Section Dirty_and_subscribers.
Context {JSONSchema : Type} (ajv_compile : JSONSchema → Ajv.ValidateFunction).
Implicit Types (m : wrapper JSONSchema) (w : world) (op : operation).

#[global] Instance dirty_grows_preorder : PreOrder dirty_grows.
Proof.
  split.
  - intros w. unfold dirty_grows. set_solver.
  - intros w1 w2 w3. unfold dirty_grows. set_solver.
Qed.

#[global] Instance dirty_shrinks_preorder : PreOrder dirty_shrinks.
Proof.
  split.
  - intros w. unfold dirty_shrinks. set_solver.
  - intros w1 w2 w3. unfold dirty_shrinks. set_solver.
Qed.

Lemma dirty_published d w : dirty (published d w) = dirty w.
Proof. by destruct (published_spec d w) as (_ & ? & _). Qed.

(** Closes the tolerance of a primitive that leaves the dirty set alone. *)
Ltac tol :=
  try done; repeat intro; unfold dirty_grows, dirty_shrinks in *; simpl;
  rewrite ?dirty_published; set_solver.

(** X10. Keys leave the dirty set only when [__reset], [__resetToInitial] or
    [__hydrate] with [resetDirty] empty it; keys enter it only through a
    write or [__hydrate]. No write removes a key: a property written away
    from its value and back stays dirty. *)
Theorem dirty_set_discipline m op w r w' :
  perform ajv_compile m op w = Some (r, w') →
  (clears_dirty op = false → dirty w ⊆ dirty w') ∧
  (marks_dirty op = false → dirty w' ⊆ dirty w).
Proof.
  intros Hrun. split; intros Hop; revert Hrun.
  - assert (Hn : tolerates_notify dirty_grows m).
    { intros w0. unfold dirty_grows. by rewrite dirty_published. }
    assert (Ha : tolerates_dirty_add dirty_grows).
    { intros w0 k. unfold dirty_grows. simpl. set_solver. }
    destruct op; try done; simpl.
    + drop_result dirty_grows
        ltac:(apply (preserves_handler_get ajv_compile dirty_grows m); tol).
    + drop_result dirty_grows
        ltac:(apply (preserves_handler_set dirty_grows m); tol).
    + drop_result dirty_grows
        ltac:(apply (preserves_handler_deleteProperty dirty_grows m); tol).
    + drop_result dirty_grows
        ltac:(apply (preserves___validate ajv_compile dirty_grows m); tol).
    + apply (preserves___hydrate dirty_grows m); try tol.
      simpl in Hop. by rewrite Hop.
    + drop_result dirty_grows
        ltac:(apply (preserves_subscribe dirty_grows m); tol).
    + drop_result dirty_grows
        ltac:(apply (preserves_call_unsubscribe dirty_grows); tol).
  - assert (Hn : tolerates_notify dirty_shrinks m).
    { intros w0. unfold dirty_shrinks. by rewrite dirty_published. }
    assert (Hc : tolerates_dirty_clear dirty_shrinks).
    { intros w0. unfold dirty_shrinks. simpl. set_solver. }
    destruct op; try done; simpl.
    + drop_result dirty_shrinks
        ltac:(apply (preserves_handler_get ajv_compile dirty_shrinks m); tol).
    + drop_result dirty_shrinks
        ltac:(apply (preserves_handler_deleteProperty dirty_shrinks m); tol).
    + drop_result dirty_shrinks
        ltac:(apply (preserves___validate ajv_compile dirty_shrinks m); tol).
    + apply (preserves___reset dirty_shrinks m); tol.
    + apply (preserves___resetToInitial dirty_shrinks m); tol.
    + drop_result dirty_shrinks
        ltac:(apply (preserves_subscribe dirty_shrinks m); tol).
    + drop_result dirty_shrinks
        ltac:(apply (preserves_call_unsubscribe dirty_shrinks); tol).
Qed.

#[global] Instance same_subscribers_preorder : PreOrder same_subscribers.
Proof.
  split; [done|]. intros w1 w2 w3 H1 H2 name. by rewrite H2, H1.
Qed.

(** X11. Who is subscribed changes only through [subscribe] and the
    unsubscribers it returns: no other operation, returning or throwing,
    adds or removes a subscriber of any event. *)
Theorem only_subscriptions_change_subscribers m op w r w' name :
  is_subscription op = false →
  perform ajv_compile m op w = Some (r, w') →
  subscribers name w' = subscribers name w.
Proof.
  intros Hop Hrun. revert name.
  change (same_subscribers w w'). revert Hrun.
  assert (Hn : tolerates_notify same_subscribers m).
  { intros w0 name. apply subscribers_published. }
  destruct op; try done; simpl.
  - drop_result same_subscribers
      ltac:(by apply (preserves_handler_get ajv_compile same_subscribers m)).
  - drop_result same_subscribers
      ltac:(by apply (preserves_handler_set same_subscribers m)).
  - drop_result same_subscribers
      ltac:(by apply (preserves_handler_deleteProperty same_subscribers m)).
  - drop_result same_subscribers
      ltac:(by apply (preserves___validate ajv_compile same_subscribers m)).
  - by apply (preserves___reset same_subscribers m).
  - by apply (preserves___resetToInitial same_subscribers m).
  - by apply (preserves___hydrate same_subscribers m).
Qed.

#[global] Instance sound_preorder m : PreOrder (sound ajv_compile m).
Proof.
  split; [by split|]. intros w1 w2 w3 [??] [??]. split; auto.
Qed.

Lemma subs_wf_insert name s w :
  NoDup s → subs_wf w → subs_wf (with_subs <[name := s]> w).
Proof.
  intros Hs Hw name' s'. simpl.
  destruct (decide (name = name')) as [->|Hne].
  - rewrite lookup_insert_eq. by intros [= <-].
  - rewrite lookup_insert_ne by done. apply Hw.
Qed.

Lemma subs_wf_subscribers name w : subs_wf w → NoDup (subscribers name w).
Proof.
  intros Hw. unfold subscribers.
  destruct (_subs w !! name) eqn:E; simpl; [by eapply Hw|apply NoDup_nil_2].
Qed.

Lemma subs_wf_touched name w : subs_wf w → subs_wf (touched name w).
Proof.
  intros Hw. unfold touched. destruct (_subs w !! name); [done|].
  apply subs_wf_insert; [apply NoDup_nil_2|done].
Qed.

Lemma perform_sound m op :
  preserves (sound ajv_compile m) (perform ajv_compile m op).
Proof.
  apply (preserves_perform ajv_compile (sound ajv_compile m) m op); try by split.
  - intros w0 s Hs Hc. split; [|done]. intros _. unfold cache_ok.
    rewrite Hs. by right.
  - intros w0. split.
    + unfold cache_ok.
      by destruct (published_spec (proxy m) w0) as (_ & _ & _ & -> & _).
    + intros Hw. unfold published.
      by apply (subs_wf_touched CHANGE_EVENT) in Hw.
  - intros w0 cb. split; [done|]. intros Hw. unfold subscribed.
    apply subs_wf_insert; [|done].
    by apply NoDup_set_add, subs_wf_subscribers.
  - intros w0 cb. split; [done|]. intros Hw. unfold unsubscribed.
    apply subs_wf_insert; [|done]. unfold set_delete.
    by apply NoDup_filter, subs_wf_subscribers.
Qed.

(** X12. Two invariants hold across every operation, returning or throwing:
    the cache holds nothing or the compiled form of the wrapper's own
    schema, and no subscriber set lists a callback twice. *)
Theorem operations_keep_invariants m op w r w' :
  perform ajv_compile m op w = Some (r, w') →
  (cache_ok ajv_compile m w → cache_ok ajv_compile m w') ∧
  (subs_wf w → subs_wf w').
Proof. apply perform_sound. Qed.

End Dirty_and_subscribers.

(** ** Notifications *)

Lemma bind_cases {A B} (op : M A) (k : A → M B) w r w' :
  bind op k w = Some (r, w') →
  (∃ a w1, op w = Some (Return a, w1) ∧ k a w1 = Some (r, w')) ∨
  (∃ e, op w = Some (Throw e, w') ∧ r = Throw e).
Proof.
  unfold bind. destruct (op w) as [[[a|e] w1]|]; [| |done].
  - intros H. left. by exists a, w1.
  - intros [= <- <-]. right. by exists e.
Qed.

Section Notifications.
Context {JSONSchema : Type} (ajv_compile : JSONSchema → Ajv.ValidateFunction).
Implicit Types (m : wrapper JSONSchema) (w : world) (op : operation).

(** A write either throws, leaving the world as it was, or returns. *)
Lemma handler_set_cases m k v w r w' :
  handler_set m k v w = Some (r, w') →
  (∃ e, r = Throw e ∧ w' = w) ∨
  (∃ ps, r = Return true ∧
     store w !! source m = Some (Obj ps) ∧ is_reserved k = false ∧
     strict m && negb (has_key ps k) = false ∧
     w' = if strict_eq (get_prop ps k) v then assigned m k v ps w
          else published (proxy m)
                 (with_dirty (λ d, d ∪ {[k]}) (assigned m k v ps w))).
Proof.
  intros H. destruct (is_reserved k) eqn:Hres.
  { unfold handler_set in H. rewrite Hres in H. injection H as <- <-.
    left. by eexists. }
  destruct (store w !! source m) as [[ps|]|] eqn:Hps.
  - destruct (strict m && negb (has_key ps k)) eqn:Hstrict.
    + unfold handler_set, bind in H.
      rewrite Hres, (target_props_run _ _ ps), Hstrict in H by done.
      injection H as <- <-. left. by eexists.
    + rewrite (handler_set_run m w ps k v Hps Hres Hstrict) in H.
      injection H as <- <-. right. by exists ps.
  - unfold handler_set, bind, target_props, object_props, lift_option in H.
    by rewrite Hres, Hps in H.
  - unfold handler_set, bind, target_props, object_props, lift_option in H.
    by rewrite Hres, Hps in H.
Qed.

Lemma handler_deleteProperty_cases m prop w r w' :
  handler_deleteProperty m prop w = Some (r, w') →
  (∃ e, r = Throw e ∧ w' = w ∧ strict m = true) ∨
  (∃ ps, r = Return true ∧ strict m = false ∧
     store w !! source m = Some (Obj ps) ∧
     w' = published (proxy m)
            (with_store <[source m := Obj (delete_prop ps prop)]> w)).
Proof.
  unfold handler_deleteProperty. destruct (strict m).
  { intros [= <- <-]. left. by eexists. }
  unfold bind at 1. unfold Reflect_deleteProperty, bind at 1.
  unfold target_props, object_props, lift_option.
  destruct (store w !! source m) as [[ps|]|] eqn:Hps; try done.
  simpl. unfold bind. rewrite notify_run. intros [= <- <-].
  right. by exists ps.
Qed.

#[global] Instance quiet_preorder : PreOrder quiet.
Proof. split; [done|]. intros w1 w2 w3 H1 H2. unfold quiet in *. congruence. Qed.

Lemma trace_published d w :
  trace (published d w) = trace w ++ notification d (published d w).
Proof. by destruct (published_spec d w) as (_ & _ & _ & _ & _ & ?). Qed.

(** X13. An operation adds to the trace, never rewrites it, and what it adds
    is nothing, or one notification of the change event carrying the proxy,
    or, for [subscribe], the one immediate call of the new subscriber. No
    operation publishes twice, and one that throws publishes nothing. *)
Theorem at_most_one_notification m op w r w' :
  perform ajv_compile m op w = Some (r, w') →
  ∃ t,
    trace w' = trace w ++ t ∧
    (t = [] ∨ t = notification (proxy m) w' ∨
     ∃ cb, op = OpSubscribe cb ∧ t = [Invoked cb (proxy m) (observe w)]) ∧
    (publications t ≤ 1)%nat ∧
    (∀ e, r = Throw e → t = []).
Proof.
  assert (Hnone : ∀ w0 : world, trace w0 = trace w → w0 = w' →
            ∃ t, trace w' = trace w ++ t ∧
              (t = [] ∨ t = notification (proxy m) w' ∨
               ∃ cb, op = OpSubscribe cb ∧
                     t = [Invoked cb (proxy m) (observe w)]) ∧
              (publications t ≤ 1)%nat ∧ (∀ e, r = Throw e → t = [])).
  { intros w0 Htr <-. exists []. rewrite app_nil_r.
    split; [done|]. split; [by left|]. split; [unfold publications; simpl; lia|done]. }
  assert (Hone : ∀ w0 : world, trace w0 = trace w →
            w' = published (proxy m) w0 → (∀ e, r ≠ Throw e) →
            ∃ t, trace w' = trace w ++ t ∧
              (t = [] ∨ t = notification (proxy m) w' ∨
               ∃ cb, op = OpSubscribe cb ∧
                     t = [Invoked cb (proxy m) (observe w)]) ∧
              (publications t ≤ 1)%nat ∧ (∀ e, r = Throw e → t = [])).
  { intros w0 Htr -> Hr. exists (notification (proxy m) (published (proxy m) w0)).
    rewrite trace_published, Htr. split; [done|].
    split; [right; by left|]. rewrite publications_notification.
    split; [lia|]. intros e He. by destruct (Hr e). }
  destruct op; cbn [perform]; intros Hrun.
  - apply bind_cases in Hrun as [(a & w1 & Hget & [= <- <-])|(e & Hget & ->)].
    + apply (Hnone w1); [|done].
      by apply (preserves_handler_get ajv_compile quiet m) in Hget.
    + apply (Hnone w'); [|done].
      by apply (preserves_handler_get ajv_compile quiet m) in Hget.
  - apply bind_cases in Hrun as [(a & w1 & Hset & [= <- <-])|(e & Hset & ->)];
      apply handler_set_cases in Hset
        as [(e' & He' & ->)|(ps & Hr & _ & _ & _ & ->)]; try done.
    + destruct (strict_eq (get_prop ps key) v).
      * by apply (Hnone (assigned m key v ps w)).
      * eapply Hone; [|reflexivity|intros ? ?; discriminate]. done.
    + by apply (Hnone w).
  - apply bind_cases in Hrun as [(a & w1 & Hdel & [= <- <-])|(e & Hdel & ->)];
      apply handler_deleteProperty_cases in Hdel
        as [(e' & He' & -> & _)|(ps & Hr & _ & _ & ->)]; try done.
    + eapply Hone; [|reflexivity|intros ? ?; discriminate]. done.
    + by apply (Hnone w).
  - apply bind_cases in Hrun as [(a & w1 & Hv & [= <- <-])|(e & Hv & ->)].
    + apply (Hnone w1); [|done].
      by apply (preserves___validate ajv_compile quiet m) in Hv.
    + apply (Hnone w'); [|done].
      by apply (preserves___validate ajv_compile quiet m) in Hv.
  - unfold __reset, bind, modify in Hrun. rewrite notify_run in Hrun.
    injection Hrun as <- <-.
    eapply Hone; [|reflexivity|intros ? ?; discriminate]. done.
  - unfold __resetToInitial, object_props in Hrun.
    apply bind_cases in Hrun as [(ips & w1 & Hi & Hrun)|(e & Hi & ->)].
    2: { apply (Hnone w'); [|done].
         by apply (preserves_lift_option quiet) in Hi. }
    apply (preserves_lift_option quiet) in Hi.
    apply bind_cases in Hrun as [([] & w2 & Hl & Hrun)|(e & Hl & ->)].
    2: { apply (Hnone w'); [|done].
         apply (preserves_restore_loop quiet m) in Hl; try done.
         unfold quiet in *. congruence. }
    apply (preserves_restore_loop quiet m) in Hl; try done.
    unfold bind, modify in Hrun. rewrite notify_run in Hrun.
    injection Hrun as <- <-.
    eapply Hone; [|reflexivity|intros ? ?; discriminate].
    unfold quiet in *. simpl. congruence.
  - unfold __hydrate, object_props in Hrun.
    apply bind_cases in Hrun as [(dps & w1 & Hi & Hrun)|(e & Hi & ->)].
    2: { apply (Hnone w'); [|done].
         by apply (preserves_lift_option quiet) in Hi. }
    apply (preserves_lift_option quiet) in Hi.
    apply bind_cases in Hrun as [([] & w2 & Hl & Hrun)|(e & Hl & ->)].
    2: { apply (Hnone w'); [|done].
         apply (preserves_hydrate_loop quiet m) in Hl; try done.
         unfold quiet in *. congruence. }
    apply (preserves_hydrate_loop quiet m) in Hl; try done.
    unfold bind in Hrun.
    destruct (default false (opts ≫= resetDirty)); simpl in Hrun;
      rewrite notify_run in Hrun; injection Hrun as <- <-;
      (eapply Hone; [|reflexivity|intros ? ?; discriminate]);
      unfold quiet in *; simpl; congruence.
  - unfold bind in Hrun. rewrite subscribe_run in Hrun.
    injection Hrun as <- <-.
    exists [Invoked cb (proxy m) (observe w)]. split; [done|].
    split; [right; right; by exists cb|]. split; [unfold publications; simpl; lia|done].
  - unfold bind in Hrun. rewrite call_unsubscribe_run in Hrun.
    injection Hrun as <- <-. by apply (Hnone (unsubscribed cb w)).
Qed.

End Notifications.

(** ** Worlds a client can reach *)

Lemma traverse_length {A B} (g : heap → A → option (B * heap)) :
  ∀ xs h ys h', traverse g h xs = Some (ys, h') → length ys = length xs.
Proof.
  induction xs as [|x xs IH]; intros h ys h'; simpl.
  - by intros [= <- _].
  - destruct (g h x) as [[y h1]|]; [|done].
    destruct (traverse g h1 xs) as [[ys' h2]|] eqn:E; [|done].
    intros [= <- _]. simpl. f_equal. by eapply IH.
Qed.



Section Reachable.
Context {JSONSchema : Type} (ajv_compile : JSONSchema → Ajv.ValidateFunction).
Implicit Types (m : wrapper JSONSchema) (w : world) (op : operation).

(** What construction establishes, whatever the source holds. *)
Lemma modelize_inv fuel src options (h0 : heap) m w1 :
  modelize fuel src options h0 = Some (Return m, w1) →
  ∃ ps0 ips,
    h0 !! src = Some (Obj ps0) ∧
    Forall (λ k, is_reserved k = false) (keys_of ps0) ∧
    source m = src ∧ strict m = default true (o_strict options) ∧
    h0 ⊆ store w1 ∧ h0 !! initial m = None ∧
    store w1 !! initial m = Some (Obj ips) ∧ keys_of ips = keys_of ps0 ∧
    w1 = fresh_world (store w1).
Proof.
  unfold modelize. destruct (h0 !! src) as [[ps0|]|] eqn:Hsrc; try done.
  destruct (List.find is_reserved (keys_of ps0)) eqn:Hfind; [done|].
  destruct (deepClone fuel h0 (VRef src)) as [[[| | | | | |ini|] h']|] eqn:Hc;
    try done.
  intros [= <- <-]. exists ps0. simpl.
  destruct fuel as [|f]; [done|]. cbn [deepClone] in Hc. rewrite Hsrc in Hc.
  destruct (traverse (deepClone f) h0 ps0.*2) as [[vs h1]|] eqn:Ht; [|done].
  unfold alloc in Hc. injection Hc as <- <-.
  assert (Hsub : h0 ⊆ h1).
  { eapply (traverse_extends (deepClone f)); [|exact Ht].
    intros ????. apply deepClone_extends. }
  assert (Hfresh : h1 !! fresh (dom h1) = None).
  { apply not_elem_of_dom, is_fresh. }
  exists (zip (keys_of ps0) vs). split; [done|]. split.
  { apply Forall_forall. intros k Hk%list_elem_of_In.
    by apply (List.find_none _ _ Hfind). }
  split; [done|]. split; [done|]. split.
  { etrans; [exact Hsub|]. by apply insert_subseteq. }
  split.
  { destruct (h0 !! fresh (dom h1)) eqn:E; [|done].
    by rewrite (lookup_weaken _ _ _ _ E Hsub) in Hfresh. }
  split; [apply lookup_insert_eq|]. split; [|done].
  unfold keys_of. apply fst_zip. apply traverse_length in Ht.
  rewrite Ht, !length_fmap. lia.
Qed.

#[global] Instance stays_shaped_preorder m K : PreOrder (stays_shaped m K).
Proof.
  split; [intros w H; exact H|]. intros w1 w2 w3 H1 H2 H. by apply H2, H1.
Qed.











End Reachable.

Section Histories.
Context {JSONSchema : Type} (ajv_compile : JSONSchema → Ajv.ValidateFunction).
Implicit Types (m : wrapper JSONSchema) (w : world) (op : operation).

Lemma model_keys_is_Some m w :
  is_Some (model_keys m w) ↔ ∃ ps, store w !! source m = Some (Obj ps).
Proof.
  unfold model_keys. destruct (store w !! source m) as [[ps|]|]; split;
    try (by intros [? ?]); eauto.
Qed.

Lemma client_step_in_order m R w1 w w' :
  client_step ajv_compile m R w w' →
  in_order ajv_compile m R w1 w → in_order ajv_compile m R w1 w'.
Proof.
  intros Hstep (Hreg & Hmod & Hcache & Hsubs).
  destruct Hstep as [w w' [op r w0 w0' Hop]|l o o' w HR Hl Hkind|o w].
  - destruct (perform_kept ajv_compile m op _ _ _ Hop) as [Hk Hm].
    destruct (perform_sound ajv_compile m op _ _ _ Hop) as [Hc Hs].
    split; [|by auto]. intros l o Hl Hne Ho. by apply Hk, Hreg.
  - split; [|split; [|done]].
    + intros l' o1 Hl' Hne Ho1. simpl.
      rewrite lookup_insert_ne by congruence. by apply Hreg.
    + apply model_keys_is_Some in Hmod as [ps Hps].
      apply model_keys_is_Some. simpl.
      destruct (decide (l = source m)) as [->|Hne].
      * rewrite lookup_insert_eq. assert (o = Obj ps) as -> by congruence.
        destruct o'; [by eexists|done].
      * rewrite lookup_insert_ne by done. by exists ps.
  - assert (Hnew : ∀ l o1, store w !! l = Some o1 →
              (alloc (store w) o).2 !! l = Some o1).
    { intros l o1 Hl. unfold alloc. simpl. rewrite lookup_insert_ne; [done|].
      intros <-. by rewrite (proj1 (not_elem_of_dom _ _) (is_fresh _)) in Hl. }
    split; [|split; [|done]].
    + intros l o1 Hl Hne Ho1. by apply Hnew, Hreg.
    + apply model_keys_is_Some in Hmod as [ps Hps].
      apply model_keys_is_Some. exists ps. by apply Hnew.
Qed.

Lemma history_in_order fuel src options (h0 : heap) m w1 w :
  modelize fuel src options h0 = Some (Return m, w1) →
  rtc (client_step ajv_compile m (allocated h0 (store w1))) w1 w →
  in_order ajv_compile m (allocated h0 (store w1)) w1 w.
Proof.
  intros Hm Hsteps.
  destruct (modelize_inv _ _ _ _ _ _ Hm)
    as (ps0 & ips & Hsrc & _ & Hsource & _ & Hsub & _ & _ & _ & Hw1).
  revert w Hsteps. apply rtc_ind_r.
  - split; [done|]. split.
    + apply model_keys_is_Some. exists ps0. rewrite Hsource.
      by eapply lookup_weaken.
    + rewrite Hw1. split.
      * unfold cache_ok. simpl. destruct (schema m); auto.
      * intros name s. simpl. by rewrite lookup_empty.
  - intros w2 w3 _ Hstep Hin. by eapply client_step_in_order.
Qed.

(** X15. Whatever a client does after construction, through the proxy or
    behind its back (writing in place to the model or to anything else that
    is not part of the snapshot, creating objects), the objects of the
    snapshot are as construction left them, the model is still a plain
    object, the cache holds nothing or the compiled schema of the wrapper,
    and no callback is subscribed twice. *)
Theorem client_histories_keep_the_snapshot fuel src options (h0 : heap) m w1 w :
  modelize fuel src options h0 = Some (Return m, w1) →
  rtc (client_step ajv_compile m (allocated h0 (store w1))) w1 w →
  (∀ l, allocated h0 (store w1) l = true → store w !! l = store w1 !! l) ∧
  is_Some (model_keys m w) ∧
  cache_ok ajv_compile m w ∧ subs_wf w.
Proof.
  intros Hm Hsteps.
  destruct (history_in_order _ _ _ _ _ _ _ Hm Hsteps) as (Hreg & Hrest).
  split; [|done]. intros l Hl.
  destruct (modelize_inv _ _ _ _ _ _ Hm)
    as (ps0 & _ & Hsrc & _ & Hsource & _).
  pose proof Hl as [[o Ho]%elem_of_dom Hnot]%allocated_true.
  rewrite Ho. apply Hreg; [done| |done].
  intros ->. apply Hnot. apply elem_of_dom. rewrite Hsource. by eexists.
Qed.


End Histories.

(** ** Validation, repeated *)

Section Validation.
Context {JSONSchema : Type} (ajv_compile : JSONSchema → Ajv.ValidateFunction).
Implicit Types (m : wrapper JSONSchema) (w : world).

(** X17. A validation pass is a function of the model as it is now. Whatever
    was validated before, [__validate] reports the errors of the schema
    followed by the one of the custom validator, returns [true] when there
    is none and throws with that list otherwise, and leaves the list as the
    last errors and the schema compiled. Asking again, by [__validate] or by
    [__isValid], gives the same answer and changes nothing: the schema is
    compiled once. *)
Theorem validation_is_repeatable m w :
  cache_ok ajv_compile m w →
  let errors :=
    schema_errors ajv_compile m (store w) ++ custom_errors m (store w) in
  let r := if bool_decide (errors = []) then Return true
           else Throw (ModelizeValidationError "Validation failed" errors) in
  ∃ w1,
    __validate ajv_compile m w = Some (r, w1) ∧
    lastErrors w1 = errors ∧
    compiledValidator w1 = ajv_compile <$> schema m ∧
    store w1 = store w ∧
    __validate ajv_compile m w1 = Some (r, w1) ∧
    handler_get ajv_compile m "__isValid" w1 =
      Some (Return (GotBool (bool_decide (errors = []))), w1).
Proof.
  intros Hc errors r.
  set (w1 := with_lastErrors errors
               (with_compiledValidator (ajv_compile <$> schema m) w)).
  assert (Hvalid : ∀ es : list ValidationError,
            Nat.eqb (length es) 0 = bool_decide (es = [])).
  { intros [|e es]; [done|]. symmetry. by apply bool_decide_eq_false_2. }
  assert (Hc1 : cache_ok ajv_compile m w1).
  { unfold cache_ok. simpl. destruct (schema m); simpl; auto. }
  assert (Hw1 : with_lastErrors errors
            (with_compiledValidator (ajv_compile <$> schema m) w1) = w1).
  { done. }
  pose proof (doValidate_run ajv_compile m w Hc) as Hrun.
  pose proof (doValidate_run ajv_compile m w1 Hc1) as Hrun1.
  cbv zeta in Hrun, Hrun1. change (store w1) with (store w) in Hrun1.
  fold errors in Hrun, Hrun1. rewrite Hvalid in Hrun, Hrun1.
  exists w1. split.
  { rewrite (__validate_run _ _ _ _ _ Hrun). simpl. subst r.
    by destruct (bool_decide (errors = [])). }
  split; [done|]. split; [done|]. split; [done|]. split.
  - rewrite (__validate_run _ _ _ _ _ Hrun1). simpl. rewrite Hw1. subst r.
    by destruct (bool_decide (errors = [])).
  - rewrite (handler_get_isValid_run _ _ _ _ _ Hrun1). simpl. by rewrite Hw1.
Qed.

End Validation.

(** ** createPubSub *)

Lemma publish_any name d w :
  publish name d w =
  Some (Return tt,
        with_trace (λ t, t ++ calls name d (touched name w)) (touched name w)).
Proof.
  unfold publish, bind. rewrite _subsFor_run. unfold modify at 1.
  rewrite forEach_invoke. unfold calls.
  rewrite subscribers_touched. unfold with_trace, observe.
  destruct (touched name w); simpl. by rewrite <- app_assoc.
Qed.

Lemma subscribers_touched_any name name' w :
  subscribers name' (touched name w) = subscribers name' w.
Proof.
  unfold subscribers, touched.
  destruct (_subs w !! name) eqn:E; simpl; [done|].
  destruct (decide (name = name')) as [<-|Hne].
  - by rewrite lookup_insert_eq, E.
  - by rewrite lookup_insert_ne.
Qed.

Lemma invocations_calls cb name d w :
  NoDup (subscribers name w) →
  invocations cb (calls name d w) =
    if bool_decide (cb ∈ subscribers name w) then 1 else 0.
Proof.
  intros Hnd. unfold calls.
  change (invocations cb ([Published name d] ++
    ((λ c, Invoked c d (observe w)) <$> subscribers name w)) =
    if bool_decide (cb ∈ subscribers name w) then 1 else 0).
  rewrite invocations_app. case_bool_decide.
  - by rewrite invocations_fmap_NoDup.
  - by rewrite invocations_fmap_notin.
Qed.

(** X18. [publish(event, detail)] returns whatever the event. It calls the
    subscribers of that event, each once, in the order they subscribed, with
    the detail, and calls nobody else: a callback subscribed to other events
    only is left alone. It changes neither who is subscribed nor the store
    nor the dirty set. *)
Theorem publish_calls_each_subscriber_once name d w :
  subs_wf w →
  ∃ w',
    publish name d w = Some (Return tt, w') ∧
    trace w' = trace w ++ calls name d w' ∧
    (∀ cb, invocations cb (trace w') =
           invocations cb (trace w) +
           if bool_decide (cb ∈ subscribers name w) then 1 else 0) ∧
    (∀ name', subscribers name' w' = subscribers name' w) ∧
    store w' = store w ∧ dirty w' = dirty w.
Proof.
  intros Hwf. eexists. split; [apply publish_any|].
  set (w1 := touched name w).
  assert (Hsubs : ∀ name', subscribers name' w1 = subscribers name' w).
  { intros name'. apply subscribers_touched_any. }
  assert (Hst : store w1 = store w ∧ dirty w1 = dirty w ∧ trace w1 = trace w).
  { subst w1. unfold touched. by destruct (_subs w !! name). }
  destruct Hst as (Hst & Hd & Htr). simpl. rewrite Htr.
  split; [done|]. split; [|done]. intros cb.
  rewrite invocations_app. f_equal.
  rewrite invocations_calls; rewrite Hsubs; [done|].
  by apply subs_wf_subscribers.
Qed.

Lemma pubsub_subscribe_run name cb w :
  pubsub_subscribe name cb w =
  Some (Return (Unsubscribe name cb),
        with_subs <[name := set_add cb (subscribers name w)]> w).
Proof.
  unfold pubsub_subscribe, bind. rewrite _subsFor_run.
  unfold modify, ret. do 2 f_equal.
  unfold subscribers, touched, with_subs. simpl.
  destruct (_subs w !! name) eqn:E; simpl; [done|].
  by rewrite insert_insert_eq.
Qed.

Lemma call_unsubscribe_any name cb w :
  call_unsubscribe (Unsubscribe name cb) w =
  Some (Return (bool_decide (cb ∈ subscribers name w)),
        with_subs <[name := set_delete cb (subscribers name w)]> w).
Proof.
  unfold call_unsubscribe, bind. rewrite _subsFor_run.
  unfold modify, ret. do 2 f_equal.
  unfold subscribers, touched, with_subs. simpl.
  destruct (_subs w !! name) eqn:E; simpl; [done|].
  by rewrite insert_insert_eq.
Qed.

Lemma subscribers_insert name name' s w :
  subscribers name' (with_subs <[name := s]> w) =
  if decide (name = name') then s else subscribers name' w.
Proof.
  unfold subscribers. simpl. case_decide as E.
  - subst. by rewrite lookup_insert_eq.
  - by rewrite lookup_insert_ne.
Qed.

(** X19. The registry is a set per event. [subscribe(event, cb)] calls
    nobody and adds [cb] to the subscribers of that event only, last, or
    changes nothing when [cb] is among them already. The function it returns
    removes [cb] from that event only, keeps the others in their order, and
    tells whether [cb] was subscribed: a second call finds nothing to remove
    and answers [false]. *)
Theorem subscribe_then_unsubscribe name cb w :
  ∃ w1 w2 w3,
    pubsub_subscribe name cb w = Some (Return (Unsubscribe name cb), w1) ∧
    trace w1 = trace w ∧
    subscribers name w1 =
      (if bool_decide (cb ∈ subscribers name w) then subscribers name w
       else subscribers name w ++ [cb]) ∧
    call_unsubscribe (Unsubscribe name cb) w1 = Some (Return true, w2) ∧
    subscribers name w2 = filter (λ c, c ≠ cb) (subscribers name w) ∧
    call_unsubscribe (Unsubscribe name cb) w2 = Some (Return false, w3) ∧
    subscribers name w3 = subscribers name w2 ∧
    (∀ name', name' ≠ name →
       subscribers name' w1 = subscribers name' w ∧
       subscribers name' w2 = subscribers name' w ∧
       subscribers name' w3 = subscribers name' w).
Proof.
  set (w1 := with_subs <[name := set_add cb (subscribers name w)]> w).
  set (w2 := with_subs <[name := set_delete cb (subscribers name w1)]> w1).
  set (w3 := with_subs <[name := set_delete cb (subscribers name w2)]> w2).
  exists w1, w2, w3.
  assert (H1 : subscribers name w1 = set_add cb (subscribers name w)).
  { subst w1. by rewrite subscribers_insert, decide_True. }
  assert (H2 : subscribers name w2 =
               filter (λ c, c ≠ cb) (subscribers name w)).
  { subst w2. rewrite subscribers_insert, decide_True by done.
    rewrite H1. unfold set_delete, set_add.
    destruct (decide (cb ∈ subscribers name w)); [done|].
    rewrite filter_app, filter_cons_False, filter_nil, app_nil_r; [done|].
    by intros H. }
  assert (H3 : subscribers name w3 = subscribers name w2).
  { subst w3. rewrite subscribers_insert, decide_True by done.
    rewrite H2. unfold set_delete. by apply list_filter_filter_l. }
  split; [apply pubsub_subscribe_run|]. split; [done|]. split.
  { rewrite H1. unfold set_add. case_bool_decide.
    - by rewrite decide_True.
    - by rewrite decide_False. }
  split.
  { rewrite call_unsubscribe_any, bool_decide_eq_true_2; [done|].
    rewrite H1. apply elem_of_set_add. by left. }
  split; [done|]. split.
  { rewrite call_unsubscribe_any, bool_decide_eq_false_2; [done|].
    rewrite H2, list_elem_of_filter. by intros [? _]. }
  split; [done|]. intros name' Hne. subst w1 w2 w3.
  by rewrite !subscribers_insert, !decide_False.
Qed.

(** X20. [unsubscribeAll(event)] forgets the event: it has no subscriber
    afterwards, the other events keep theirs, and nobody is called. It
    answers whether the registry knew the event, which is so as soon as the
    event was subscribed to or published, with or without subscribers. *)
Theorem unsubscribeAll_forgets_the_event name w :
  ∃ w',
    unsubscribeAll name w =
      Some (Return (bool_decide (is_Some (_subs w !! name))), w') ∧
    subscribers name w' = [] ∧
    (∀ name', name' ≠ name → subscribers name' w' = subscribers name' w) ∧
    trace w' = trace w ∧
    unsubscribeAll name w' = Some (Return false, w') ∧
    (∀ d, ∃ w1 w2, publish name d w' = Some (Return tt, w1) ∧
                   trace w1 = trace w' ++ [Published name d] ∧
                   unsubscribeAll name w1 = Some (Return true, w2)).
Proof.
  eexists. split; [reflexivity|]. simpl.
  set (w' := with_subs (delete name) w).
  assert (Hnone : _subs w' !! name = None) by apply lookup_delete_eq.
  split; [unfold subscribers; by rewrite Hnone|]. split.
  { intros name' Hne. unfold subscribers. simpl.
    by rewrite lookup_delete_ne. }
  split; [done|]. split.
  { unfold unsubscribeAll, bind, gets, modify, ret.
    rewrite bool_decide_eq_false_2 by (rewrite Hnone; by intros [? ?]).
    do 2 f_equal. subst w'. unfold with_subs. simpl. f_equal.
    apply delete_id, lookup_delete_eq. }
  intros d. eexists _, _. split; [apply publish_any|].
  assert (Ht : touched name w' = with_subs <[name := []]> w').
  { unfold touched. by rewrite Hnone. }
  rewrite Ht. split.
  { simpl. unfold calls, subscribers. simpl. by rewrite lookup_insert_eq. }
  unfold unsubscribeAll, bind, gets, modify, ret. simpl.
  rewrite bool_decide_eq_true_2; [done|]. rewrite lookup_insert_eq. by eexists.
Qed.

(** ** Bulk update, key by key *)

Lemma get_set_prop_self ps key k :
  get_prop (set_prop ps key (get_prop ps key)) k = get_prop ps k.
Proof.
  unfold get_prop. destruct (decide (k = key)) as [->|Hne].
  - by rewrite lookup_set_prop_eq.
  - by rewrite lookup_set_prop_ne.
Qed.

Section Hydrate_result.
Context {JSONSchema : Type} (ajv_compile : JSONSchema → Ajv.ValidateFunction).
Implicit Types (m : wrapper JSONSchema) (w : world) (k : string).

(** The loop of [__hydrate] on distinct keys that all pass the strict-mode
    check.  The data may be the model itself. *)
Lemma hydrate_loop_result m data dps0 keys : ∀ w tps dps,
  NoDup keys →
  store w !! source m = Some (Obj tps) →
  store w !! data = Some (Obj dps) →
  (∀ k, get_prop dps k = get_prop dps0 k) →
  (strict m = true → ∀ k, k ∈ keys → has_key tps k = true) →
  ∃ w' tps',
    hydrate_loop m data keys w = Some (Return tt, w') ∧
    store w' = <[source m := Obj tps']> (store w) ∧
    (∀ k, k ∈ keys → lookup_prop tps' k = Some (get_prop dps0 k)) ∧
    (∀ k, k ∉ keys → lookup_prop tps' k = lookup_prop tps k) ∧
    (∀ k, k ∈ dirty w' ↔
          k ∈ dirty w ∨
          (k ∈ keys ∧ strict_eq (get_prop tps k) (get_prop dps0 k) = false)).
Proof.
  induction keys as [|key rest IH]; intros w tps dps Hnd Ht Hd Hsame Hk.
  - exists w, tps. split; [done|]. split; [by rewrite insert_id|].
    split; [by intros k ?%elem_of_nil|]. split; [done|].
    intros k. split; [by left|]. by intros [?|[?%elem_of_nil _]].
  - apply NoDup_cons in Hnd as [Hnotin Hnd].
    assert (Hs : strict m && negb (has_key tps key) = false).
    { destruct (strict m); [|done]. simpl.
      rewrite (Hk eq_refl key); [done|]. by left. }
    rewrite (hydrate_step m data key rest w tps dps) by done.
    pose proof (Hsame key) as Hnv.
    generalize dependent (get_prop dps key). intros nv Hnv. subst nv.
    destruct (IH ((if strict_eq (get_prop tps key) (get_prop dps0 key)
                   then id else with_dirty (λ d, d ∪ {[key]}))
                    (assigned m key (get_prop dps0 key) tps w))
                 (set_prop tps key (get_prop dps0 key))
                 (if decide (data = source m)
                  then set_prop tps key (get_prop dps0 key) else dps))
      as (w' & tps' & Hrun & Hst' & Hin & Hout & Hd'); try done.
    + destruct (strict_eq _ _); apply lookup_insert_eq.
    + assert (Hst : ∀ w0, store w0 = <[source m :=
                  Obj (set_prop tps key (get_prop dps0 key))]> (store w) →
                store w0 !! data =
                Some (Obj (if decide (data = source m)
                           then set_prop tps key (get_prop dps0 key)
                           else dps))).
      { intros w0 ->. case_decide as E.
        - rewrite E. apply lookup_insert_eq.
        - by rewrite lookup_insert_ne. }
      destruct (strict_eq _ _); by apply Hst.
    + intros k. case_decide as E; [|done].
      assert (dps = tps) as -> by congruence.
      rewrite <- (Hsame key), get_set_prop_self. apply Hsame.
    + intros Hstrict k Hkr. apply has_key_set_prop.
      apply Hk; [done|]. by right.
    + assert (Hget : ∀ k, k ∈ rest →
                get_prop (set_prop tps key (get_prop dps0 key)) k =
                get_prop tps k).
      { intros k Hkr. unfold get_prop. rewrite lookup_set_prop_ne; [done|].
        by intros ->. }
      exists w', tps'. split; [done|]. split.
      { rewrite Hst'. destruct (strict_eq _ _); apply insert_insert_eq. }
      split; [|split].
      * intros k [->|Hkr]%elem_of_cons; [|by apply Hin].
        rewrite Hout by done. apply lookup_set_prop_eq.
      * intros k [Hne Hkr]%not_elem_of_cons. rewrite Hout by done.
        by apply lookup_set_prop_ne.
      * intros k. rewrite Hd'.
        assert (Hfirst :
          k ∈ dirty ((if strict_eq (get_prop tps key) (get_prop dps0 key)
                      then id else with_dirty (λ d, d ∪ {[key]}))
                       (assigned m key (get_prop dps0 key) tps w)) ↔
          k ∈ dirty w ∨
          (k = key ∧
           strict_eq (get_prop tps key) (get_prop dps0 key) = false)).
        { destruct (strict_eq (get_prop tps key) (get_prop dps0 key)); simpl.
          - naive_solver.
          - rewrite elem_of_union, elem_of_singleton. naive_solver. }
        rewrite Hfirst, elem_of_cons. split.
        -- intros [[?|[-> ?]]|[Hkr Hse]]; [by left|right; by auto|].
           right. split; [by right|]. by rewrite <- (Hget k Hkr).
        -- intros [?|[[->|Hkr] Hse]]; [left; by left|left; right; by auto|].
           right. split; [done|]. by rewrite (Hget k Hkr).
Qed.


Lemma handler_get_value m w ps prop :
  is_reserved prop = false →
  store w !! source m = Some (Obj ps) →
  handler_get ajv_compile m prop w =
  Some (Return (GotValue (get_prop ps prop)), w).
Proof.
  intros Hres Hps. unfold is_reserved, RESERVED_NAMES in Hres.
  apply bool_decide_eq_false in Hres.
  rewrite !not_elem_of_cons in Hres.
  destruct Hres as (?&?&?&?&?&?&?&?&?&?&?&_).
  unfold handler_get. rewrite !decide_False by done.
  rewrite bool_decide_eq_false_2.
  - unfold bind, Reflect_get, bind.
    by rewrite (target_props_run _ _ ps).
  - rewrite !not_elem_of_cons. repeat split; auto using not_elem_of_nil.
Qed.

Lemma handler_get_reserved m w prop r w' :
  is_reserved prop = true →
  handler_get ajv_compile m prop w = Some (r, w') →
  ∀ v, r ≠ Return (GotValue v).
Proof.
  intros Hres. apply bool_decide_eq_true in Hres.
  unfold RESERVED_NAMES in Hres.
  repeat (apply elem_of_cons in Hres as [->|Hres]);
    [..|by apply elem_of_nil in Hres]; intros Hrun v ->;
    try discriminate Hrun.
  destruct (doValidate_total ajv_compile m w) as (r & c & Hv & _).
  rewrite (handler_get_isValid_run _ _ _ _ _ Hv) in Hrun. discriminate Hrun.
Qed.

(** X22. A write that adds a property. Without strict mode, writing a key
    the model neither has nor inherits adds it to the keys of the model,
    the other properties staying as they were, and the value reads back
    through the proxy. The key is marked dirty and one notification is
    published, unless the value written is [undefined]: the missing key
    read as [undefined] before, so the property is created with no trace
    of a change. *)
Theorem nonstrict_write_adds_the_key m w ps k v :
  strict m = false →
  is_reserved k = false →
  store w !! source m = Some (Obj ps) →
  has_key ps k = false →
  ∃ w' ps',
    handler_set m k v w = Some (Return true, w') ∧
    store w' !! source m = Some (Obj ps') ∧
    (∀ k', k' ∈ keys_of ps' ↔ k' = k ∨ k' ∈ keys_of ps) ∧
    (∀ k', k' ≠ k → lookup_prop ps' k' = lookup_prop ps k') ∧
    handler_get ajv_compile m k w' = Some (Return (GotValue v), w') ∧
    (v = VUndefined → dirty w' = dirty w ∧ trace w' = trace w) ∧
    (v ≠ VUndefined →
       dirty w' = dirty w ∪ {[k]} ∧
       trace w' = trace w ++ notification (proxy m) w').
Proof.
  intros Hs Hres Hps Hnotin.
  assert (Hold : get_prop ps k = VUndefined) by by apply get_prop_absent.
  assert (Hstrict : strict m && negb (has_key ps k) = false) by by rewrite Hs.
  rewrite (handler_set_run m w ps k v Hps Hres Hstrict), Hold.
  eexists _, (set_prop ps k v). split; [reflexivity|].
  assert (Hkeys : ∀ w0, store w0 = store (assigned m k v ps w) →
            store w0 !! source m = Some (Obj (set_prop ps k v)) ∧
            handler_get ajv_compile m k w0 = Some (Return (GotValue v), w0)).
  { intros w0 Hst.
    assert (Hm : store w0 !! source m = Some (Obj (set_prop ps k v))).
    { rewrite Hst. apply store_assigned. }
    split; [done|].
    by rewrite (handler_get_value m w0 _ k Hres Hm), get_set_prop_eq. }
  assert (Hin : ∀ k', k' ∈ keys_of (set_prop ps k v) ↔ k' = k ∨ k' ∈ keys_of ps).
  { intros k'. apply keys_of_set_prop. }
  assert (Hout : ∀ k', k' ≠ k →
            lookup_prop (set_prop ps k v) k' = lookup_prop ps k').
  { intros k' Hne. by apply lookup_set_prop_ne. }
  destruct (decide (v = VUndefined)) as [->|Hv].
  - simpl. destruct (Hkeys (assigned m k VUndefined ps w) eq_refl) as [? ?].
    do 4 (split; [done|]). split; [by intros _|by intros ?].
  - assert (strict_eq VUndefined v = false) as ->.
    { by destruct v. }
    destruct (published_spec (proxy m)
                (with_dirty (λ d, d ∪ {[k]}) (assigned m k v ps w)))
      as (Hst & Hd & _ & _ & _ & Htr).
    destruct (Hkeys _ Hst) as [? ?].
    do 4 (split; [done|]). split; [by intros ?|by intros _].
Qed.

(** X23. The reserved names are checked on a write, not on a bulk update.
    Reading a reserved name through the proxy never reaches the model,
    whatever the model holds; yet without strict mode [__hydrate] stores a
    property of the data under a reserved name in the model, where the proxy
    cannot read it. *)
Theorem reserved_names_shadow_the_model m k :
  is_reserved k = true →
  (∀ w r w' v,
     handler_get ajv_compile m k w = Some (r, w') → r ≠ Return (GotValue v)) ∧
  (strict m = false →
   ∀ w data dps tps opts,
     store w !! source m = Some (Obj tps) →
     store w !! data = Some (Obj dps) →
     NoDup (keys_of dps) → k ∈ keys_of dps →
     ∃ w' tps',
       __hydrate m data opts w = Some (Return tt, w') ∧
       store w' !! source m = Some (Obj tps') ∧
       lookup_prop tps' k = Some (get_prop dps k)).
Proof.
  intros Hres. split.
  - intros w r w' v Hrun. by eapply handler_get_reserved.
  - intros Hs w data dps tps opts Ht Hd Hnd Hk.
    destruct (hydrate_loop_result m data dps (keys_of dps) w tps dps)
      as (w1 & tps' & Hrun & Hst & Hin & _); try done.
    { intros Habs. congruence. }
    exists (published (proxy m)
              ((if default false (opts ≫= resetDirty)
                then with_dirty (λ _, ∅) else id) w1)), tps'.
    split; [|split; [|by apply Hin]].
    + unfold __hydrate. unfold bind at 1.
      rewrite (object_props_run _ _ dps) by done.
      unfold bind at 1. rewrite Hrun. unfold bind.
      destruct (default false (opts ≫= resetDirty)); simpl;
        by rewrite notify_run.
    + destruct (published_spec (proxy m)
                  ((if default false (opts ≫= resetDirty)
                    then with_dirty (λ _, ∅) else id) w1)) as (-> & _).
      destruct (default false (opts ≫= resetDirty)); simpl;
        rewrite Hst; apply lookup_insert_eq.
Qed.

End Hydrate_result.

(** ** The properties on examples *)

(** One operation on [john], run to its end. *)
Ltac run_operation E :=
  match goal with
  | |- context [perform ?c ?m ?op ?w] =>
      destruct (perform c m op w) as [[? ?]|] eqn:E; [|by vm_compute in E]
  end.

Lemma subs_wf_fresh (h : heap) : subs_wf (fresh_world h).
Proof. intros name s. simpl. by rewrite lookup_empty. Qed.

Lemma jw_subs_wf : subs_wf Demo.jw.
Proof.
  assert (E : _subs Demo.jw = ∅) by by_compute.
  intros name s. by rewrite E, lookup_empty.
Qed.

(** [delete model.name] without strict mode keeps [john.nested]. *)
Lemma operations_write_to_the_model_only_witness :
  ∃ r w',
    perform Demo.compile Demo.lm (OpDelete "name") Demo.jw = Some (r, w') ∧
    store w' !! 2%positive = Some (Obj [("value", VNumber 1)]).
Proof.
  run_operation E. eexists _, _. split; [reflexivity|].
  destruct (operations_write_to_the_model_only Demo.compile Demo.lm
              _ _ _ _ E) as [Hk _].
  apply Hk; [done|by_compute].
Defined.

(** [model.subscribe(cb)] leaves the store alone. *)
Lemma only_writes_touch_the_store_witness :
  ∃ r w',
    perform Demo.compile Demo.jm (OpSubscribe 7) Demo.jw = Some (r, w') ∧
    store w' = store Demo.jw.
Proof.
  run_operation E. eexists _, _. split; [reflexivity|].
  by apply (only_writes_touch_the_store Demo.compile Demo.jm (OpSubscribe 7)
              _ _ _ eq_refl E).
Defined.

(** A write to a model its schema rejects does not validate it. *)
Lemma only_validation_changes_errors_witness :
  ∃ r w',
    perform Demo.compile Demo.vm (OpSet "age" (VNumber (-7))) Demo.vw =
      Some (r, w') ∧
    lastErrors w' = [] ∧ compiledValidator w' = None.
Proof.
  run_operation E. eexists _, _. split; [reflexivity|].
  by apply (only_validation_changes_errors Demo.compile Demo.vm
              (OpSet "age" (VNumber (-7))) _ _ _ eq_refl E).
Defined.

(** [model.__validate()] throws on the rejected model, and publishes
    nothing. *)
Lemma reads_and_validation_are_silent_witness :
  ∃ e w',
    __validate Demo.compile Demo.vm Demo.vw = Some (Throw e, w') ∧
    trace w' = trace Demo.vw ∧ dirty w' = dirty Demo.vw.
Proof.
  destruct (__validate Demo.compile Demo.vm Demo.vw) as [[[b|e] w']|] eqn:E;
    [by vm_compute in E| |by vm_compute in E].
  exists e, w'. split; [reflexivity|].
  destruct (reads_and_validation_are_silent Demo.compile Demo.vm Demo.vw)
    as [_ Hv].
  destruct (Hv _ _ E) as (_ & Hd & _ & Ht). by split.
Defined.

(** With [name] dirty, writing [name] back to its first value keeps it
    dirty; deleting [name], without strict mode, leaves the dirty set as it
    is. *)
Lemma dirty_set_discipline_witness :
  (∃ r w',
     perform Demo.compile Demo.jm (OpSet "name" (VString "John"))
       Demo.jw_jane = Some (r, w') ∧
     "name" ∈ dirty w') ∧
  (∃ r w',
     perform Demo.compile Demo.lm (OpDelete "name") Demo.jw_jane =
       Some (r, w') ∧
     "name" ∈ dirty w' ∧ dirty w' ⊆ dirty Demo.jw_jane).
Proof.
  assert (Hname : "name" ∈ dirty Demo.jw_jane) by decide_by_compute.
  split.
  - run_operation E. eexists _, _. split; [reflexivity|].
    destruct (dirty_set_discipline Demo.compile Demo.jm
                (OpSet "name" (VString "John")) _ _ _ E) as [Hg _].
    by apply Hg.
  - run_operation E. eexists _, _. split; [reflexivity|].
    destruct (dirty_set_discipline Demo.compile Demo.lm (OpDelete "name")
                _ _ _ E) as [Hg Hs].
    split; [by apply Hg|by apply Hs].
Defined.

(** With 7 and 8 subscribed, [model.name = "Jane"] notifies them and
    leaves them subscribed. *)
Lemma only_subscriptions_change_subscribers_witness :
  ∃ r w',
    perform Demo.compile Demo.jm (OpSet "name" (VString "Jane"))
      Demo.jw_subscribed = Some (r, w') ∧
    subscribers CHANGE_EVENT w' = [7; 8].
Proof.
  run_operation E. eexists _, _. split; [reflexivity|].
  rewrite (only_subscriptions_change_subscribers Demo.compile Demo.jm
             (OpSet "name" (VString "Jane")) _ _ _ CHANGE_EVENT eq_refl E).
  by_compute.
Defined.

(** The first validation of the rejected model compiles its schema. *)
Lemma operations_keep_invariants_witness :
  ∃ r w',
    perform Demo.compile Demo.vm OpValidate Demo.vw = Some (r, w') ∧
    cache_ok Demo.compile Demo.vm w' ∧ subs_wf w'.
Proof.
  run_operation E. eexists _, _. split; [reflexivity|].
  destruct (operations_keep_invariants Demo.compile Demo.vm OpValidate
              _ _ _ E) as [Hc Hs].
  split.
  - apply Hc. left. reflexivity.
  - apply Hs. apply subs_wf_fresh.
Defined.

(** [model.name = "Jane"] publishes once. *)
Lemma at_most_one_notification_witness :
  ∃ r w' t,
    perform Demo.compile Demo.jm (OpSet "name" (VString "Jane")) Demo.jw =
      Some (r, w') ∧
    trace w' = trace Demo.jw ++ t ∧ (publications t ≤ 1)%nat.
Proof.
  run_operation E.
  destruct (at_most_one_notification Demo.compile Demo.jm
              (OpSet "name" (VString "Jane")) _ _ _ E)
    as (t & Ht & _ & Hp & _).
  eexists _, _, t. split; [reflexivity|]. by split.
Defined.


Lemma jw_mutated_reachable :
  rtc (client_step Demo.compile Demo.jm
         (allocated Demo.john (store Demo.jw))) Demo.jw Demo.jw_mutated.
Proof.
  apply rtc_once.
  apply (in_place Demo.compile Demo.jm _ 2%positive
           (Obj [("value", VNumber 1)]) (Obj [("value", VNumber 999)])).
  - by_compute.
  - by_compute.
  - exact I.
Qed.

(** [john.nested.value = 999] behind the proxy's back leaves the snapshot
    alone. *)
Lemma client_histories_keep_the_snapshot_witness :
  store Demo.jw_mutated !! initial Demo.jm =
    store Demo.jw !! initial Demo.jm ∧
  is_Some (model_keys Demo.jm Demo.jw_mutated).
Proof.
  destruct (client_histories_keep_the_snapshot Demo.compile 3 1%positive
              Demo.plain Demo.john Demo.jm Demo.jw Demo.jw_mutated built_eq
              jw_mutated_reachable) as (Hsnap & Hm & _).
  split; [|exact Hm]. apply Hsnap. by_compute.
Defined.


(** The rejected model is rejected again, for the same reasons. *)
Lemma validation_is_repeatable_witness :
  ∃ r w1,
    __validate Demo.compile Demo.vm Demo.vw = Some (r, w1) ∧
    __validate Demo.compile Demo.vm w1 = Some (r, w1) ∧
    length (lastErrors w1) = 2.
Proof.
  pose proof (validation_is_repeatable Demo.compile Demo.vm Demo.vw) as H.
  cbv zeta in H. destruct H as (w1 & H1 & He & _ & _ & H2 & _).
  - left. reflexivity.
  - eexists _, w1. split; [exact H1|]. split; [exact H2|].
    rewrite He. by_compute.
Defined.

Lemma jw_subscribed_wf : subs_wf Demo.jw_subscribed.
Proof.
  assert (E : _subs Demo.jw_subscribed = <[CHANGE_EVENT := [7; 8]]> ∅)
    by by_compute.
  intros name s. rewrite E.
  intros [[_ <-]|[_ H]]%lookup_insert_Some; [|by rewrite lookup_empty in H].
  by apply (bool_decide_eq_true_1 (NoDup [7; 8])).
Qed.

(** A publication with 7 and 8 subscribed: both are called once, in the
    order they subscribed; 9, who is not subscribed, is not called. *)
Lemma publish_calls_each_subscriber_once_witness :
  ∃ w',
    publish CHANGE_EVENT (proxy Demo.jm) Demo.jw_subscribed =
      Some (Return tt, w') ∧
    invocations 7 (trace w') = invocations 7 (trace Demo.jw_subscribed) + 1 ∧
    invocations 8 (trace w') = invocations 8 (trace Demo.jw_subscribed) + 1 ∧
    invocations 9 (trace w') = invocations 9 (trace Demo.jw_subscribed) + 0 ∧
    subscribers CHANGE_EVENT w' = [7; 8].
Proof.
  destruct (publish_calls_each_subscriber_once CHANGE_EVENT (proxy Demo.jm)
              Demo.jw_subscribed jw_subscribed_wf)
    as (w' & Hrun & _ & Hi & Hs & _).
  exists w'. split; [exact Hrun|].
  split; [exact (Hi 7)|]. split; [exact (Hi 8)|]. split; [exact (Hi 9)|].
  rewrite Hs. by_compute.
Defined.


(** Without strict mode, [model.newProp = "value"]. *)
Lemma nonstrict_write_adds_the_key_witness :
  ∃ w' ps',
    handler_set Demo.lm "newProp" (VString "value") Demo.jw =
      Some (Return true, w') ∧
    store w' !! source Demo.lm = Some (Obj ps') ∧
    "newProp" ∈ keys_of ps' ∧
    handler_get Demo.compile Demo.lm "newProp" w' =
      Some (Return (GotValue (VString "value")), w').
Proof.
  destruct (nonstrict_write_adds_the_key Demo.compile Demo.lm Demo.jw
              Demo.john_props "newProp" (VString "value"))
    as (w' & ps' & Hrun & Hst & Hk & _ & Hget & _).
  - reflexivity.
  - by_compute.
  - exact jw_model.
  - decide_by_compute.
  - exists w', ps'. split; [exact Hrun|]. split; [exact Hst|].
    split; [|exact Hget]. apply Hk. by left.
Defined.

(** Without strict mode, [model.__hydrate({ subscribe: 1 })]. *)
Lemma reserved_names_shadow_the_model_witness :
  ∃ w' tps',
    __hydrate Demo.lm 5%positive None
      (Demo.with_data [("subscribe", VNumber 1)]) = Some (Return tt, w') ∧
    store w' !! 1%positive = Some (Obj tps') ∧
    lookup_prop tps' "subscribe" = Some (VNumber 1).
Proof.
  destruct (reserved_names_shadow_the_model Demo.compile Demo.lm "subscribe")
    as [_ H]; [by_compute|].
  destruct (H eq_refl (Demo.with_data [("subscribe", VNumber 1)]) 5%positive
              [("subscribe", VNumber 1)] Demo.john_props None)
    as (w' & tps' & Hrun & Hst & Hl).
  - by_compute.
  - by_compute.
  - decide_by_compute.
  - decide_by_compute.
  - by exists w', tps'.
Defined.
